(** * luna-go: the wire-protocol client of the Luna SQL driver

    A shallow embedding of [protocol.go], [rows.go], [conn.go], [result.go]
    and the transaction shim, with the properties of the frame codec, the
    result cursor and the session that the specification states. *)

From Stdlib Require Import ZArith NArith Strings.String Strings.Byte.
From stdpp Require Import base option list gmap.

Local Open Scope string_scope.
Local Open Scope list_scope.

(** ** Go values the driver handles *)

(** A Go [string] or [[]byte] is a sequence of bytes. *)
Definition bytes := list byte.

Definition bytes_of (s : string) : bytes := list_byte_of_string s.

(** Go [error] values.  The [Errorf_*] constructors are calls of
    [fmt.Errorf] with the message text of the source: [Errorf_w m e] is
    [fmt.Errorf(m + ": %w", e)], [Errorf_s m s] is [fmt.Errorf(m + ": %s", s)],
    and so on for the verbs [%c], [%X %X %X] and [%T]. *)
Inductive error : Type :=
  | io_EOF
  | io_ErrUnexpectedEOF
  | net_Error (msg : string)
  | ipc_Error (msg : string)
  | driver_ErrBadConn
  | driver_ErrSkip
  | Errorf_0 (msg : string)
  | Errorf_w (msg : string) (e : error)
  | Errorf_s (msg : string) (s : bytes)
  | Errorf_c (msg : string) (b : byte)
  | Errorf_X3 (msg : string) (b0 b1 b2 : byte)
  | Errorf_T (msg : string) (goType : string).

(** The outcome of a Go call: it returns its results, or it panics. *)
Inductive Go (A : Type) : Type :=
  | Return (a : A)
  | Panics (msg : string).
Arguments Return {A} a.
Arguments Panics {A} msg.

(** ** [strings.TrimSpace] on the bytes of a string

    Go trims, at both ends, every rune with the Unicode White_Space property.
    Each such rune has one valid UTF-8 encoding, and a rune decoded at the
    start (or [DecodeLastRune] at the end) of a string is one of them exactly
    when the bytes there are that encoding: [spaceWidth] gives its width. *)
Definition asciiSpace (b : byte) : bool :=
  match b with
  | x09 | x0a | x0b | x0c | x0d | x20 => true
  | _ => false
  end.

Definition isByte (n : N) (b : byte) : bool := N.eqb (Byte.to_N b) n.

(** The last byte of U+2000..U+200A, U+2028, U+2029 and U+202F after E2 80. *)
Definition generalPunctSpace (b : byte) : bool :=
  let n := Byte.to_N b in
  ((128 <=? n)%N && (n <=? 138)%N) || N.eqb n 168 || N.eqb n 169 || N.eqb n 175.

(** Width of the white-space rune whose encoding is [b0 b1 b2 ...], 0 if none. *)
Definition spaceSeq (b0 : byte) (b1 b2 : option byte) : nat :=
  if asciiSpace b0 then 1
  else match b1 with
       | None => 0
       | Some c1 =>
         if isByte 194 b0 && (isByte 133 c1 || isByte 160 c1) then 2
         else match b2 with
              | None => 0
              | Some c2 =>
                if isByte 225 b0 && isByte 154 c1 && isByte 128 c2 then 3
                else if isByte 226 b0 && isByte 128 c1 && generalPunctSpace c2 then 3
                else if isByte 226 b0 && isByte 129 c1 && isByte 159 c2 then 3
                else if isByte 227 b0 && isByte 128 c1 && isByte 128 c2 then 3
                else 0
              end
       end.

Definition spaceWidth (s : bytes) : nat :=
  match s with
  | [] => 0
  | b0 :: t => spaceSeq b0 (t !! 0) (t !! 1)
  end.

(** Width of the white-space rune that ends the string whose bytes, last
    first, are [r]. *)
Definition lastSpaceWidth (r : bytes) : nat :=
  match r with
  | [] => 0
  | c0 :: t =>
    if asciiSpace c0 then 1
    else match t with
         | [] => 0
         | c1 :: t' =>
           if Nat.eqb (spaceSeq c1 (Some c0) None) 2 then 2
           else match t' with
                | [] => 0
                | c2 :: _ => if Nat.eqb (spaceSeq c2 (Some c1) (Some c0)) 3 then 3 else 0
                end
         end
    end.

Fixpoint trimWith (width : bytes -> nat) (fuel : nat) (s : bytes) : bytes :=
  match fuel with
  | 0 => s
  | S fuel' =>
    match width s with
    | 0 => s
    | w => trimWith width fuel' (drop w s)
    end
  end.

Definition TrimLeft (s : bytes) : bytes := trimWith spaceWidth (length s) s.

Definition TrimRight (s : bytes) : bytes :=
  rev (trimWith lastSpaceWidth (length s) (rev s)).

Definition TrimSpace (s : bytes) : bytes := TrimRight (TrimLeft s).

(** ** [strconv.Atoi] and the [%d] verb *)

Definition digitOf (b : byte) : option Z :=
  let n := Byte.to_N b in
  if (48 <=? n)%N && (n <=? 57)%N then Some (Z.of_N n - 48)%Z else None.

Fixpoint parseDigits (acc : Z) (s : bytes) : option Z :=
  match s with
  | [] => Some acc
  | b :: t =>
    match digitOf b with
    | Some d => parseDigits (acc * 10 + d)%Z t
    | None => None
    end
  end.

Definition minInt : Z := (- 2 ^ 63)%Z.
Definition maxInt : Z := (2 ^ 63 - 1)%Z.

(** [strconv.Atoi] for a 64-bit [int]: an optional sign, then one or more
    decimal digits, the value within the range of [int]; [None] is Go's
    syntax or range error. *)
Definition Atoi (s : bytes) : option Z :=
  match s with
  | [] => None
  | c :: t =>
    let neg := isByte 45 c in
    let ds := if isByte 45 c || isByte 43 c then t else s in
    match ds with
    | [] => None
    | _ :: _ =>
      match parseDigits 0 ds with
      | None => None
      | Some v =>
        let z := if neg then (- v)%Z else v in
        if (minInt <=? z)%Z && (z <=? maxInt)%Z then Some z else None
      end
    end
  end.

Definition digitByte (d : N) : byte :=
  match Byte.of_N (48 + d) with
  | Some b => b
  | None => x30
  end.

Fixpoint digitsOf (fuel : nat) (n : N) (acc : bytes) : bytes :=
  match fuel with
  | 0 => acc
  | S fuel' =>
    let acc' := digitByte (n mod 10) :: acc in
    if (n <? 10)%N then acc' else digitsOf fuel' (n / 10) acc'
  end.

(** The decimal digits of [n], most significant first; "0" for 0. *)
Definition decimal (n : N) : bytes := digitsOf (S (N.to_nat (N.log2 n))) n [].

(** [fmt.Sprintf("%d", z)]. *)
Definition formatInt (z : Z) : bytes :=
  if (z <? 0)%Z then x2d :: decimal (Z.to_N (- z)) else decimal (Z.to_N z).

(** ** [bufio.Reader] over the connection

    [unread] holds every byte the peer sends from here on, [failure] the
    error the connection reports once they are used up ([io.EOF] when the
    peer closes the socket). *)
Record Reader : Type := mkReader { unread : bytes; failure : error }.

Definition setUnread (r : Reader) (s : bytes) : Reader :=
  mkReader s (failure r).

(** [ReadByte] returns the zero byte with the error, as Go does. *)
Definition ReadByte (r : Reader) : byte * option error * Reader :=
  match unread r with
  | [] => (x00, Some (failure r), r)
  | b :: t => (b, None, setUnread r t)
  end.

(** The bytes up to and with the first [delim], and what follows it. *)
Fixpoint splitDelim (delim : byte) (s : bytes) : option (bytes * bytes) :=
  match s with
  | [] => None
  | b :: t =>
    if Byte.eqb b delim then Some ([b], t)
    else match splitDelim delim t with
         | Some (line, rest) => Some (b :: line, rest)
         | None => None
         end
  end.

(** [ReadString] returns what it read before the error when the delimiter
    never comes. *)
Definition ReadString (r : Reader) (delim : byte) : bytes * option error * Reader :=
  match splitDelim delim (unread r) with
  | Some (line, rest) => (line, None, setUnread r rest)
  | None => (unread r, Some (failure r), setUnread r [])
  end.

(** [io.ReadFull(reader, buf)] for [len(buf) = n]: the bytes read, and
    [io.ErrUnexpectedEOF] when the stream ends after some but not all. *)
Definition ReadFull (r : Reader) (n : Z) : bytes * option error * Reader :=
  if (n <=? Z.of_nat (length (unread r)))%Z then
    (take (Z.to_nat n) (unread r), None, setUnread r (drop (Z.to_nat n) (unread r)))
  else
    let err := match unread r, failure r with
               | _ :: _, io_EOF => io_ErrUnexpectedEOF
               | _, e => e
               end in
    (unread r, Some err, setUnread r []).

(** ** [net.Conn]: the socket the commands are written to *)
Record NetConn : Type := mkNetConn {
  sent : bytes;               (* every byte written so far *)
  writeErr : option error;    (* the error of a write on a broken socket *)
  closeErr : option error;    (* what closing the socket returns *)
  sockClosed : bool
}.

Definition Write (nc : NetConn) (b : bytes) : Z * option error * NetConn :=
  match writeErr nc with
  | Some e => (0%Z, Some e, nc)
  | None =>
    (Z.of_nat (length b), None,
     mkNetConn (sent nc ++ b) (writeErr nc) (closeErr nc) (sockClosed nc))
  end.

Definition nilDereference : string :=
  "runtime error: invalid memory address or nil pointer dereference".

(** ** Arrow arrays, records and the values handed to [database/sql] *)

Inductive TimeUnit : Type := Second | Millisecond | Microsecond | Nanosecond.

(** A [time.Time] as the Arrow conversion that made it. *)
Inductive Time : Type :=
  | Date32_ToTime (days : Z)
  | Date64_ToTime (millis : Z)
  | Timestamp_ToTime (t : Z) (unit : TimeUnit).

(** [driver.Value]: Go's [nil] ([VNil]), or a value of one Go type.  Floats
    are kept as their bit patterns, a decimal rendered by
    [Num.ToString(scale)] as the number and the scale it was rendered from. *)
Inductive Value : Type :=
  | VNil
  | VBool (b : bool)
  | VInt8 (z : Z) | VInt16 (z : Z) | VInt32 (z : Z) | VInt64 (z : Z)
  | VUint8 (z : Z) | VUint16 (z : Z) | VUint32 (z : Z) | VUint64 (z : Z)
  | VFloat32 (bits : Z) | VFloat64 (bits : Z)
  | VString (s : bytes)
  | VBytes (s : bytes)
  | VTime (t : Time)
  | VDecimalString (num : Z) (scale : Z).

(** The Go types behind the [arrow.Array] interface, each with its [Value]
    method.  [OtherArray] is any array type the switch of
    [getValueFromColumn] does not list ([*array.Null], [*array.Float16],
    [*array.List], ...), named as [%T] prints it. *)
Inductive TypedArray : Type :=
  | Boolean (value : nat -> bool)
  | Int8 (value : nat -> Z) | Int16 (value : nat -> Z)
  | Int32 (value : nat -> Z) | Int64 (value : nat -> Z)
  | Uint8 (value : nat -> Z) | Uint16 (value : nat -> Z)
  | Uint32 (value : nat -> Z) | Uint64 (value : nat -> Z)
  | Float32 (value : nat -> Z) | Float64 (value : nat -> Z)
  | String_ (value : nat -> bytes)
  | Binary (value : nat -> bytes)
  | Date32 (value : nat -> Z)
  | Date64 (value : nat -> Z)
  | Timestamp (Unit : TimeUnit) (value : nat -> Z)
  | Decimal128 (Scale : Z) (value : nat -> Z)
  | Decimal256 (Scale : Z) (value : nat -> Z)
  | OtherArray (goType : string).

(** An [arrow.Array]: the null bitmap through [IsNull], and the typed array. *)
Record Array : Type := mkArray { IsNull : nat -> bool; typed : TypedArray }.

(** An [arrow.Record]: one decoded batch. *)
Record ArrowRecord : Type := mkRecord {
  Schema : option (list bytes);   (* the field names, [None] for a nil schema *)
  NumRows : Z;
  ColumnArrays : list Array        (* [Column(i)] is the i-th *)
}.

Definition NumCols (rec : ArrowRecord) : nat := length (ColumnArrays rec).

(** ** The Arrow IPC stream reader, a library the driver calls

    [ipcRead input] is [ipc.NewReader(input)] followed by the loop over
    [Next()]: the error of [NewReader], the records the loop retained, the
    error [Err()] reports after it, and how many bytes of [input] were read. *)
Record IpcRun : Type := mkIpcRun {
  newReaderErr : option error;
  decoded : list ArrowRecord;
  readErr : option error;
  consumed : nat
}.

Class ArrowIPC : Type := ipcRead : Reader -> IpcRun.

(** ** protocol.go *)

Definition cmdQuery : bytes := bytes_of "q:".
Definition cmdExecute : bytes := bytes_of "x:".

Definition CRLF : bytes := [x0d; x0a].

(** [fmt.Sprintf("$%d\r\n%s\r\n", n, message)]. *)
Definition Sprintf_frame (n : Z) (message : bytes) : bytes :=
  x24 :: formatInt n ++ CRLF ++ message ++ CRLF.

Definition sendCommand (conn : option NetConn) (cmd sql : bytes)
  : Go (option error) * option NetConn :=
  let message := cmd ++ sql in
  let resp := Sprintf_frame (Z.of_nat (length message)) message in
  match conn with
  | None => (Panics nilDereference, None)
  | Some nc =>
    let '(_, err, nc') := Write nc resp in
    (Return err, Some nc')
  end.

Definition continuationMarker : bytes := [xff; xff; xff; xff].

(** [readResponse] returns Go's triple (type, data, error) and leaves the
    reader after what it consumed; [make] panics on a negative length.
    Not modelled: [make([]byte, length)] also panics, or the runtime runs
    out of memory, when [length] is beyond what can be allocated; here a
    [bytes] of any non-negative length exists, so what is proved of a bulk
    length speaks of lengths the machine can allocate. *)
Definition readResponse (reader : Reader)
  : Go (string * bytes * option error) * Reader :=
  let '(firstByte, err, r1) := ReadByte reader in
  match err with
  | Some e => (Return ("", [], Some e), r1)
  | None =>
    match firstByte with
    | xff =>
      let '(marker, err, r2) := ReadFull r1 3 in
      match err with
      | Some e =>
        (Return ("", [], Some (Errorf_w "failed to read continuation marker" e)), r2)
      | None =>
        let m0 := nth 0 marker x00 in
        let m1 := nth 1 marker x00 in
        let m2 := nth 2 marker x00 in
        if negb (Byte.eqb m0 xff) || negb (Byte.eqb m1 xff) || negb (Byte.eqb m2 xff)
        then (Return ("", [], Some (Errorf_X3 "invalid continuation marker" m0 m1 m2)), r2)
        else (Return ("arrow-stream", continuationMarker, None), r2)
      end
    | x24 =>
      let '(lengthStr, err, r2) := ReadString r1 x0a in
      match err with
      | Some e => (Return ("", [], Some e), r2)
      | None =>
        let lengthStr := TrimSpace lengthStr in
        match Atoi lengthStr with
        | None => (Return ("", [], Some (Errorf_s "invalid length" lengthStr)), r2)
        | Some length =>
          if (length =? -1)%Z then (Return ("null", [], None), r2)
          else if (length <? 0)%Z
          then (Panics "runtime error: makeslice: len out of range", r2)
          else
            let '(data, err, r3) := ReadFull r2 length in
            match err with
            | Some e => (Return ("", [], Some e), r3)
            | None =>
              let '(_, _, r4) := ReadByte r3 in
              let '(_, _, r5) := ReadByte r4 in
              (Return ("bulk", data, None), r5)
            end
        end
      end
    | x2b =>
      let '(line, err, r2) := ReadString r1 x0a in
      match err with
      | Some e => (Return ("", [], Some e), r2)
      | None => (Return ("ok", TrimSpace line, None), r2)
      end
    | x2d =>
      let '(line, err, r2) := ReadString r1 x0a in
      match err with
      | Some e => (Return ("", [], Some e), r2)
      | None => (Return ("error", TrimSpace line, None), r2)
      end
    | x3a =>
      let '(line, err, r2) := ReadString r1 x0a in
      match err with
      | Some e => (Return ("", [], Some e), r2)
      | None => (Return ("int", TrimSpace line, None), r2)
      end
    | _ => (Return ("", [], Some (Errorf_c "unknown response type" firstByte)), r1)
    end
  end.

(** [io.MultiReader(continuationReader, reader)]: the marker, then the rest
    of the connection. *)
Definition combinedReader (reader : Reader) : Reader :=
  setUnread reader (continuationMarker ++ unread reader).

(** The connection's reader after the IPC reader took [n] bytes from the
    combined one: the first four came from the marker. *)
Definition afterCombined (reader : Reader) (n : nat) : Reader :=
  setUnread reader (drop (n - length continuationMarker) (unread reader)).

Definition parseArrowIPCFromReader `{ArrowIPC} (reader : Reader)
  : (list ArrowRecord * option error) * Reader :=
  let run := ipcRead (combinedReader reader) in
  let reader' := afterCombined reader (consumed run) in
  match newReaderErr run with
  | Some e => (([], Some (Errorf_w "failed to create IPC reader" e)), reader')
  | None =>
    match readErr run with
    | Some e => (([], Some (Errorf_w "error reading IPC records" e)), reader')
    | None => ((decoded run, None), reader')
    end
  end.

(** [bytesReader] wraps a byte slice to implement [io.Reader]. *)
Module bytesReader.

Record t : Type := mk { data : bytes; pos : nat }.

(** [Read(p)] for [len(p) = n]: the bytes copied into [p], the error, and
    the reader after the call. *)
Definition Read (r : t) (n : nat) : bytes * option error * t :=
  if Nat.leb (length (data r)) (pos r) then ([], Some io_EOF, r)
  else
    let copied := take n (drop (pos r) (data r)) in
    (copied, None, mk (data r) (pos r + length copied)).

End bytesReader.

(** [parseArrowIPC] parses Arrow IPC data held in memory: the IPC reader
    runs over a [bytesReader], the bytes of [data] and then [io.EOF]. *)
Definition parseArrowIPC `{ArrowIPC} (data : bytes) : list ArrowRecord * option error :=
  match data with
  | [] => ([], None)
  | _ :: _ =>
    let run := ipcRead (mkReader data io_EOF) in
    match newReaderErr run with
    | Some e => ([], Some (Errorf_w "failed to create IPC reader" e))
    | None =>
      match readErr run with
      | Some e => ([], Some (Errorf_w "error reading IPC records" e))
      | None => (decoded run, None)
      end
    end
  end.

(** The two commands of the driver: [QueryContext] sends [cmdQuery],
    [ExecContext] sends [cmdExecute]. *)
Inductive CommandKind : Type := Query | Execute.

Definition prefixOf (kind : CommandKind) : bytes :=
  match kind with
  | Query => cmdQuery
  | Execute => cmdExecute
  end.

(** The leading bytes [readResponse] has a case for. *)
Definition controlByte (b : byte) : bool :=
  match b with
  | x2b | x2d | x3a | x24 | xff => true
  | _ => false
  end.

(** The response types a leading byte can give. *)
Definition variantsOf (b : byte) : list string :=
  match b with
  | x2b => ["ok"]
  | x2d => ["error"]
  | x3a => ["int"]
  | x24 => ["null"; "bulk"]
  | xff => ["arrow-stream"]
  | _ => []
  end.

(** ** rows.go *)

Definition unsupported (goType : string) : Value * option error :=
  (VNil, Some (Errorf_T "unsupported Arrow type" goType)).

(** [getValueFromColumn] extracts a value from an Arrow column at the given
    row index: Go's pair (value, error). *)
Definition getValueFromColumn (col : Array) (rowIdx : nat) : Value * option error :=
  if IsNull col rowIdx then (VNil, None)
  else
    match typed col with
    | Boolean value => (VBool (value rowIdx), None)
    | Int8 value => (VInt8 (value rowIdx), None)
    | Int16 value => (VInt16 (value rowIdx), None)
    | Int32 value => (VInt32 (value rowIdx), None)
    | Int64 value => (VInt64 (value rowIdx), None)
    | Uint8 value => (VUint8 (value rowIdx), None)
    | Uint16 value => (VUint16 (value rowIdx), None)
    | Uint32 value => (VUint32 (value rowIdx), None)
    | Uint64 value => (VUint64 (value rowIdx), None)
    | Float32 value => (VFloat32 (value rowIdx), None)
    | Float64 value => (VFloat64 (value rowIdx), None)
    | String_ value => (VString (value rowIdx), None)
    | Binary value => (VBytes (value rowIdx), None)
    | Date32 value => (VTime (Date32_ToTime (value rowIdx)), None)
    | Date64 value => (VTime (Date64_ToTime (value rowIdx)), None)
    | Timestamp unit value => (VTime (Timestamp_ToTime (value rowIdx) unit), None)
    | Decimal128 scale value => (VDecimalString (value rowIdx) scale, None)
    | Decimal256 scale value => (VDecimalString (value rowIdx) scale, None)
    | OtherArray goType => unsupported goType
    end.

(** The array types the switch of [getValueFromColumn] has a case for. *)
Definition supported (a : TypedArray) : bool :=
  match a with
  | OtherArray _ => false
  | _ => true
  end.

(** What a cell holding the zero value of the column's type is extracted
    as: [false], 0, the empty string, the epoch. *)
Definition zeroValue (a : TypedArray) : option Value :=
  match a with
  | Boolean _ => Some (VBool false)
  | Int8 _ => Some (VInt8 0)
  | Int16 _ => Some (VInt16 0)
  | Int32 _ => Some (VInt32 0)
  | Int64 _ => Some (VInt64 0)
  | Uint8 _ => Some (VUint8 0)
  | Uint16 _ => Some (VUint16 0)
  | Uint32 _ => Some (VUint32 0)
  | Uint64 _ => Some (VUint64 0)
  | Float32 _ => Some (VFloat32 0)
  | Float64 _ => Some (VFloat64 0)
  | String_ _ => Some (VString [])
  | Binary _ => Some (VBytes [])
  | Date32 _ => Some (VTime (Date32_ToTime 0))
  | Date64 _ => Some (VTime (Date64_ToTime 0))
  | Timestamp unit _ => Some (VTime (Timestamp_ToTime 0 unit))
  | Decimal128 scale _ => Some (VDecimalString 0 scale)
  | Decimal256 scale _ => Some (VDecimalString 0 scale)
  | OtherArray _ => None
  end.

Module Rows.

(** [recordIdx] is a Go [int] that starts at 0 and only grows; [rowIdx] an
    [int64] that is incremented only below some [NumRows], so never wraps. *)
Record t : Type := mk {
  records : list ArrowRecord;
  recordIdx : nat;
  rowIdx : Z;
  columns : list bytes;
  closed : bool
}.

Definition newRowsFromArrow (recs : list ArrowRecord) : t :=
  let columns :=
    match recs with
    | rec :: _ =>
      match Schema rec with
      | Some names => names
      | None => []
      end
    | [] => []
    end in
  mk recs 0 0 columns false.

Definition Columns (r : t) : list bytes := columns r.

(** How the loop over the columns of one row ends. *)
Inductive filled : Type :=
  | Filled                       (* every cell stored *)
  | FillError (err : error)      (* [return err] *)
  | FillPanic (i n : nat).       (* [dest[i]] with [len(dest) = n <= i] *)

(** [for i := 0; i < int(record.NumCols()); i++], from column [i] on:
    [cols] are the columns [i], [i+1], ...  The slice [dest] is the
    caller's and keeps what was stored before an error. *)
Fixpoint fillRow (cols : list Array) (i : nat) (row : nat) (dest : list Value)
  : filled * list Value :=
  match cols with
  | [] => (Filled, dest)
  | col :: cols' =>
    match getValueFromColumn col row with
    | (_, Some err) => (FillError err, dest)
    | (val, None) =>
      if Nat.ltb i (length dest)
      then fillRow cols' (S i) row (<[i := val]> dest)
      else (FillPanic i (length dest), dest)
    end
  end.

(** The run-time panic of the index expression [dest[i]] on a slice of
    length [n]. *)
Definition indexOutOfRange (i n : nat) : string :=
  String.append "runtime error: index out of range ["
    (String.append (string_of_list_byte (decimal (N.of_nat i)))
       (String.append "] with length "
          (string_of_list_byte (decimal (N.of_nat n))))).

(** [for r.recordIdx < len(r.records)], on the records from [recordIdx]
    on: [rest] is [r.records[r.recordIdx:]], its head the current record. *)
Fixpoint nextLoop (rest : list ArrowRecord) (r : t) (dest : list Value)
  : Go (option error) * t * list Value :=
  match rest with
  | [] => (Return (Some io_EOF), r, dest)
  | record :: rest' =>
    if (rowIdx r <? NumRows record)%Z then
      match fillRow (ColumnArrays record) 0 (Z.to_nat (rowIdx r)) dest with
      | (Filled, dest') =>
        (Return None,
         mk (records r) (recordIdx r) (rowIdx r + 1) (columns r) (closed r),
         dest')
      | (FillError err, dest') => (Return (Some err), r, dest')
      | (FillPanic i n, dest') => (Panics (indexOutOfRange i n), r, dest')
      end
    else
      nextLoop rest' (mk (records r) (S (recordIdx r)) 0 (columns r) (closed r)) dest
  end.

Definition Next (r : t) (dest : list Value) : Go (option error) * t * list Value :=
  if closed r then (Return (Some io_EOF), r, dest)
  else nextLoop (drop (recordIdx r) (records r)) r dest.

(** [Close] returns its error, the cursor, and the records it called
    [Release()] on, in order. *)
Definition Close (r : t) : option error * t * list ArrowRecord :=
  if closed r then (None, r, [])
  else
    (None, mk [] (recordIdx r) (rowIdx r) (columns r) true, records r).

End Rows.

(** ** Using the cursor *)

(** [n] calls of [Next] in a row on the same [dest], as [database/sql]
    makes them: the result of each call with [dest] as it left it, and the
    cursor after the last. *)
Fixpoint nextCalls (n : nat) (r : Rows.t) (dest : list Value)
  : list (Go (option error) * list Value) * Rows.t :=
  match n with
  | 0 => ([], r)
  | S n' =>
    let '(res, r', dest') := Rows.Next r dest in
    let '(calls, final) := nextCalls n' r' dest' in
    ((res, dest') :: calls, final)
  end.

(** [n] calls of [Close] in a row: the error of each, the cursor after the
    last, and every record released on the way. *)
Fixpoint closeCalls (n : nat) (r : Rows.t)
  : list (option error) * Rows.t * list ArrowRecord :=
  match n with
  | 0 => ([], r, [])
  | S n' =>
    let '(err, r', released) := Rows.Close r in
    let '(errs, final, released') := closeCalls n' r' in
    (err :: errs, final, released ++ released')
  end.

(** The cells of row [i] of a batch as [getValueFromColumn] extracts them,
    the rows of a batch in row order, and the rows of a sequence of batches
    in batch order. *)
Definition rowValues (rec : ArrowRecord) (i : nat) : list Value :=
  map (fun col => fst (getValueFromColumn col i)) (ColumnArrays rec).

Definition batchRows (rec : ArrowRecord) : list (list Value) :=
  map (rowValues rec) (seq 0 (Z.to_nat (NumRows rec))).

Definition allRows (recs : list ArrowRecord) : list (list Value) :=
  concat (map batchRows recs).

Definition totalRows (recs : list ArrowRecord) : nat :=
  sum_list (map (fun rec => Z.to_nat (NumRows rec)) recs).

(** Every cell of the batch is extracted without error. *)
Definition decodable (rec : ArrowRecord) : bool :=
  forallb (fun i =>
             forallb (fun col =>
                        match snd (getValueFromColumn col i) with
                        | None => true
                        | Some _ => false
                        end)
                     (ColumnArrays rec))
          (seq 0 (Z.to_nat (NumRows rec))).

(** The rows a cursor has not visited yet: what is left of the current
    batch from [rowIdx] on, then the batches after it. *)
Definition pendingFrom (rest : list ArrowRecord) (rowIdx : Z) : list (list Value) :=
  match rest with
  | [] => []
  | rec :: rest' => drop (Z.to_nat rowIdx) (batchRows rec) ++ allRows rest'
  end.

Definition pending (r : Rows.t) : list (list Value) :=
  pendingFrom (drop (Rows.recordIdx r) (Rows.records r)) (Rows.rowIdx r).

(** ** result.go *)

Record result : Type := mkresult { rowsAffected : Z }.

Definition LastInsertId (r : result) : Z * option error := (0%Z, Some driver_ErrSkip).


(** ** conn.go *)

(** A [*Conn]: an address in the store of connections. *)
Definition ptr : Type := nat.

(** Go's struct [tx]: the connection it belongs to, [None] for [nil]. *)
Record Tx : Type := mkTx { c : option ptr }.

(** Go's struct [Stmt] of statement.go: the connection it was prepared on,
    its SQL text, and whether it has been closed. *)
Record Stmt : Type := mkStmt { conn : ptr; query : bytes; closed : bool }.

Module Conn.

Record t : Type := mk {
  tempTableQuery : bool;
  conn : option NetConn;
  reader : option Reader;
  closed : bool;
  tx : bool
}.

Definition setConn (c : t) (nc : option NetConn) : t :=
  mk (tempTableQuery c) nc (reader c) (closed c) (tx c).
Definition setReader (c : t) (rd : Reader) : t :=
  mk (tempTableQuery c) (conn c) (Some rd) (closed c) (tx c).
Definition setClosed (c : t) (b : bool) : t :=
  mk (tempTableQuery c) (conn c) (reader c) b (tx c).
Definition setTx (c : t) (b : bool) : t :=
  mk (tempTableQuery c) (conn c) (reader c) (closed c) b.

(** What [ExecContext] does with a response read without error. *)
Definition execResponse `{ArrowIPC} (c : t) (respType : string) (data : bytes)
    (rd : Reader) : Go (option result * option error) * t :=
  if String.eqb respType "error" then
    (Return (None, Some (Errorf_s "luna error" data)), setReader c rd)
  else if String.eqb respType "arrow-stream" then
    match parseArrowIPCFromReader rd with
    | ((_, Some err), rd') =>
      (Return (None, Some (Errorf_w "failed to parse Arrow IPC" err)), setReader c rd')
    | ((_, None), rd') =>
      (Return (Some (mkresult 0), None), setReader c rd')
    end
  else (Return (Some (mkresult 0), None), setReader c rd).

Definition ExecContext `{ArrowIPC} (c : t) (query : bytes)
  : Go (option result * option error) * t :=
  if closed c then (Return (None, Some driver_ErrBadConn), c)
  else
    match sendCommand (conn c) cmdExecute query with
    | (Panics msg, nc) => (Panics msg, setConn c nc)
    | (Return (Some err), nc) =>
      (Return (None, Some (Errorf_w "failed to send command" err)), setConn c nc)
    | (Return None, nc) =>
      let c1 := setConn c nc in
      match reader c1 with
      | None => (Panics nilDereference, c1)
      | Some rd =>
        match readResponse rd with
        | (Panics msg, rd') => (Panics msg, setReader c1 rd')
        | (Return (_, _, Some err), rd') =>
          (Return (None, Some (Errorf_w "failed to read response" err)), setReader c1 rd')
        | (Return (respType, data, None), rd') => execResponse c1 respType data rd'
        end
      end
    end.

(** [BeginTx] on the connection at [p]; an address the store does not
    hold stands for a nil [*Conn]. *)
Definition BeginTx `{ArrowIPC} (h : gmap ptr t) (p : ptr)
  : Go (option Tx * option error) * gmap ptr t :=
  match h !! p with
  | None => (Panics nilDereference, h)
  | Some cn =>
    if tx cn then
      (Return (None, Some (Errorf_0 "luna: there is already an open transaction")), h)
    else
      match ExecContext cn (bytes_of "BEGIN TRANSACTION") with
      | (Panics msg, cn') => (Panics msg, <[p := cn']> h)
      | (Return (_, Some err), cn') => (Return (None, Some err), <[p := cn']> h)
      | (Return (_, None), cn') =>
        (Return (Some (mkTx (Some p)), None), <[p := setTx cn' true]> h)
      end
  end.

Definition Close (c : t) : option error * t :=
  if closed c then (Some (Errorf_0 "luna: connection already closed"), c)
  else
    let c1 := setClosed c true in
    match conn c1 with
    | Some nc =>
      (closeErr nc,
       setConn c1 (Some (mkNetConn (sent nc) (writeErr nc) (closeErr nc) true)))
    | None => (None, c1)
    end.

(** What [QueryContext] does with a response read without error. *)
Definition queryResponse `{ArrowIPC} (c : t) (respType : string) (data : bytes)
    (rd : Reader) : Go (option Rows.t * option error) * t :=
  if String.eqb respType "error" then
    (Return (None, Some (Errorf_s "luna error" data)), setReader c rd)
  else
    let '((records, err), rd') :=
      if String.eqb respType "arrow-stream" then parseArrowIPCFromReader rd
      else (parseArrowIPC data, rd) in
    match err with
    | Some e =>
      (Return (None, Some (Errorf_w "failed to parse Arrow IPC" e)), setReader c rd')
    | None => (Return (Some (Rows.newRowsFromArrow records), None), setReader c rd')
    end.

Definition QueryContext `{ArrowIPC} (c : t) (query : bytes)
  : Go (option Rows.t * option error) * t :=
  if closed c then (Return (None, Some driver_ErrBadConn), c)
  else
    match sendCommand (conn c) cmdQuery query with
    | (Panics msg, nc) => (Panics msg, setConn c nc)
    | (Return (Some err), nc) =>
      (Return (None, Some (Errorf_w "failed to send command" err)), setConn c nc)
    | (Return None, nc) =>
      let c1 := setConn c nc in
      match reader c1 with
      | None => (Panics nilDereference, c1)
      | Some rd =>
        match readResponse rd with
        | (Panics msg, rd') => (Panics msg, setReader c1 rd')
        | (Return (_, _, Some err), rd') =>
          (Return (None, Some (Errorf_w "failed to read response" err)), setReader c1 rd')
        | (Return (respType, data, None), rd') => queryResponse c1 respType data rd'
        end
      end
    end.

(** [Ping] returns its error, the connection, and the records released by
    closing the rows of its query. *)
Definition Ping `{ArrowIPC} (c : t) : Go (option error) * t * list ArrowRecord :=
  if closed c then (Return (Some driver_ErrBadConn), c, [])
  else
    match QueryContext c (bytes_of "SELECT 1") with
    | (Panics msg, c') => (Panics msg, c', [])
    | (Return (_, Some err), c') => (Return (Some err), c', [])
    | (Return (Some rows, None), c') =>
      let '(_, _, released) := Rows.Close rows in
      (Return None, c', released)
    | (Return (None, None), c') => (Return None, c', [])
    end.

(** [Prepare] on the connection at [p]. *)
Definition Prepare (h : gmap ptr t) (p : ptr) (query : bytes)
  : Go (option Stmt * option error) :=
  match h !! p with
  | None => Panics nilDereference
  | Some cn =>
    if closed cn then Return (None, Some (Errorf_0 "luna: connection closed"))
    else Return (Some (mkStmt p query false), None)
  end.

Definition Begin `{ArrowIPC} (h : gmap ptr t) (p : ptr)
  : Go (option Tx * option error) * gmap ptr t :=
  BeginTx h p.

End Conn.

(** ** The transaction shim *)

Module tx.

Definition extraCommit : string :=
  "database/sql/driver: misuse of duckdb driver: extra Commit".
Definition extraRollback : string :=
  "database/sql/driver: misuse of duckdb driver: extra Rollback".

Definition Commit `{ArrowIPC} (h : gmap ptr Conn.t) (t : Tx)
  : Go (option error) * Tx * gmap ptr Conn.t :=
  match c t with
  | None => (Panics extraCommit, t, h)
  | Some p =>
    match h !! p with
    | None => (Panics nilDereference, t, h)
    | Some cn =>
      if negb (Conn.tx cn) then (Panics extraCommit, t, h)
      else
        match Conn.ExecContext (Conn.setTx cn false) (bytes_of "COMMIT TRANSACTION") with
        | (Panics msg, cn') => (Panics msg, t, <[p := cn']> h)
        | (Return (_, err), cn') => (Return err, mkTx None, <[p := cn']> h)
        end
    end
  end.

Definition Rollback `{ArrowIPC} (h : gmap ptr Conn.t) (t : Tx)
  : Go (option error) * Tx * gmap ptr Conn.t :=
  match c t with
  | None => (Panics extraRollback, t, h)
  | Some p =>
    match h !! p with
    | None => (Panics nilDereference, t, h)
    | Some cn =>
      if negb (Conn.tx cn) then (Panics extraRollback, t, h)
      else
        match Conn.ExecContext (Conn.setTx cn false) (bytes_of "ROLLBACK") with
        | (Panics msg, cn') => (Panics msg, t, <[p := cn']> h)
        | (Return (_, err), cn') => (Return err, mkTx None, <[p := cn']> h)
        end
    end
  end.

End tx.

(** ** statement.go *)

(** [driver.NamedValue]. *)
Record NamedValue : Type := mkNamedValue {
  Name : string;
  Ordinal : Z;
  NamedValue_Value : Value
}.

(** [args[n].Value = param; args[n].Ordinal = n + 1] for the values from
    index [n] on. *)
Fixpoint namedFrom (n : nat) (values : list Value) : list NamedValue :=
  match values with
  | [] => []
  | param :: values' =>
    mkNamedValue "" (Z.of_nat n + 1) param :: namedFrom (S n) values'
  end.

Definition argsToNamedArgs (values : list Value) : list NamedValue :=
  namedFrom 0 values.

Module Stmt.

Definition Close (s : Stmt) : option error * Stmt :=
  if closed s then (Some (Errorf_0 "statement already closed"), s)
  else (None, mkStmt (conn s) (query s) true).

Definition NumInput (s : Stmt) : Go Z :=
  if closed s
  then Panics "database/sql/driver: misuse of luna driver: NumInput after Close"
  else Return (-1)%Z.

(** The arguments are accepted and not sent. *)
Definition ExecContext `{ArrowIPC} (h : gmap ptr Conn.t) (s : Stmt)
    (nargs : list NamedValue)
  : Go (option result * option error) * gmap ptr Conn.t :=
  if closed s then (Return (None, Some (Errorf_0 "statement is closed")), h)
  else
    match h !! conn s with
    | None => (Panics nilDereference, h)
    | Some cn =>
      let '(res, cn') := Conn.ExecContext cn (query s) in
      (res, <[conn s := cn']> h)
    end.

Definition Exec `{ArrowIPC} (h : gmap ptr Conn.t) (s : Stmt) (args : list Value) :=
  ExecContext h s (argsToNamedArgs args).

Definition QueryContext `{ArrowIPC} (h : gmap ptr Conn.t) (s : Stmt)
    (nargs : list NamedValue)
  : Go (option Rows.t * option error) * gmap ptr Conn.t :=
  if closed s then (Return (None, Some (Errorf_0 "statement is closed")), h)
  else
    match h !! conn s with
    | None => (Panics nilDereference, h)
    | Some cn =>
      let '(res, cn') := Conn.QueryContext cn (query s) in
      (res, <[conn s := cn']> h)
    end.

Definition Query `{ArrowIPC} (h : gmap ptr Conn.t) (s : Stmt) (args : list Value) :=
  QueryContext h s (argsToNamedArgs args).

End Stmt.

(** ** Using the session *)

(** The frame [sendCommand] builds for a command, and the socket after a
    write of [b] that succeeded. *)
Definition commandFrame (cmd sql : bytes) : bytes :=
  Sprintf_frame (Z.of_nat (length (cmd ++ sql))) (cmd ++ sql).

Definition sending (nc : NetConn) (b : bytes) : NetConn :=
  mkNetConn (sent nc ++ b) (writeErr nc) (closeErr nc) (sockClosed nc).

(** What a command may do to the socket and to the reader of a session:
    write nothing or the one frame, and move the reader forward. *)
Definition oneFrame (frame : bytes) (c c' : Conn.t) : Prop :=
  (Conn.conn c' = Conn.conn c
   \/ exists nc, Conn.conn c = Some nc /\ Conn.conn c' = Some (sending nc frame))
  /\ match Conn.reader c, Conn.reader c' with
     | Some rd, Some rd' => failure rd' = failure rd /\ unread rd' `suffix_of` unread rd
     | None, None => True
     | _, _ => False
     end.

(** [ExecContext] for each query of a list in turn, on the same session:
    the outcome of each call and the session after the last. *)
Fixpoint execAll `{ArrowIPC} (queries : list bytes) (c : Conn.t)
  : list (Go (option result * option error)) * Conn.t :=
  match queries with
  | [] => ([], c)
  | q :: queries' =>
    let '(res, c') := Conn.ExecContext c q in
    let '(outcomes, final) := execAll queries' c' in
    (res :: outcomes, final)
  end.

(** Calls of [Read] in a row with buffers of the given sizes: what each
    call returned, and the reader after the last. *)
Fixpoint readMany (sizes : list nat) (r : bytesReader.t)
  : list (bytes * option error) * bytesReader.t :=
  match sizes with
  | [] => ([], r)
  | n :: sizes' =>
    let '(copied, err, r') := bytesReader.Read r n in
    let '(results, final) := readMany sizes' r' in
    ((copied, err) :: results, final)
  end.

(** ** Sample data for running the definitions *)

(** An IPC reader that reads its input to the end and finds no record batch. *)
Definition emptyStreamIPC : ArrowIPC :=
  fun input => mkIpcRun None [] None (length (unread input)).

(** A column of 64-bit integers holding 7, a null over a stored 0, and 9. *)
Definition int64Column : Array :=
  mkArray (fun i => Nat.eqb i 1)
          (Int64 (fun i => match i with O => 7%Z | S O => 0%Z | _ => 9%Z end)).

(** A column of half-precision floats, a type the driver has no case for. *)
Definition float16Column : Array :=
  mkArray (fun _ => false) (OtherArray "*array.Float16").

(** A column of half-precision floats whose validity bitmap marks the first
    cell as null and the others as present. *)
Definition float16NullFirst : Array :=
  mkArray (fun i => Nat.eqb i 0) (OtherArray "*array.Float16").

(** A text column, and three batches over the schema (id, name): two rows,
    no row, one row. *)
Definition textColumn : Array :=
  mkArray (fun _ => false)
          (String_ (fun i => match i with O => bytes_of "ada" | _ => bytes_of "bob" end)).

Definition idName : option (list bytes) := Some [bytes_of "id"; bytes_of "name"].

Definition sampleBatches : list ArrowRecord :=
  [mkRecord idName 2 [int64Column; textColumn];
   mkRecord idName 0 [int64Column; textColumn];
   mkRecord idName 1 [int64Column; textColumn]].

(** One batch with one row of one half-precision float. *)
Definition float16Batch : list ArrowRecord := [mkRecord None 1 [float16Column]].

(** A socket in working order, a session over it whose peer sent [input]
    and then closed, and the same session after [Close]. *)
Definition freshSocket : NetConn := mkNetConn [] None None false.

Definition session (input : bytes) : Conn.t :=
  Conn.mk false (Some freshSocket) (Some (mkReader input io_EOF)) false false.

Definition closedSession : Conn.t := snd (Conn.Close (session [])).

(** A store with one session at address 0, no transaction open, and a
    transaction handle that points to it. *)
Definition oneSession : gmap ptr Conn.t := {[ 0 := session [] ]}.

Definition staleTx : Tx := mkTx (Some 0).

(** The same store with the transaction flag of the session set. *)
Definition oneSessionInTx : gmap ptr Conn.t := {[ 0 := Conn.setTx (session []) true ]}.

(** An IPC reader that decodes the sample batches from whatever it is given
    and reads its input to the end. *)
Definition sampleIPC : ArrowIPC :=
  fun input => mkIpcRun None sampleBatches None (length (unread input)).

(** A store with one session at address 0 whose peer answers OK twice, the
    same with the transaction flag set, and a statement prepared on it. *)
Definition okTwice : bytes := bytes_of "+OK" ++ CRLF ++ bytes_of "+OK" ++ CRLF.

Definition okSession : gmap ptr Conn.t := {[ 0 := session okTwice ]}.

Definition okSessionInTx : gmap ptr Conn.t := {[ 0 := Conn.setTx (session okTwice) true ]}.

Definition sampleStmt : Stmt := mkStmt 0 (bytes_of "INSERT INTO t VALUES (?)") false.

(** * Properties *)

(** ** The frame codec *)

Section FrameCodec.

Variable fl : error.

Lemma readResponse_empty :
  readResponse (mkReader [] fl) = (Return ("", [], Some fl), mkReader [] fl).
Proof. reflexivity. Qed.

Lemma ReadString_found (s line tail : bytes) :
  splitDelim x0a s = Some (line, tail) ->
  ReadString (mkReader s fl) x0a = (line, None, mkReader tail fl).
Proof. intros Hs. unfold ReadString. cbn. now rewrite Hs. Qed.

Lemma ReadString_missing (s : bytes) :
  splitDelim x0a s = None ->
  ReadString (mkReader s fl) x0a = (s, Some fl, mkReader [] fl).
Proof. intros Hs. unfold ReadString. cbn. now rewrite Hs. Qed.

(** A line response: the three cases that read to the newline and trim. *)
Lemma readResponse_line (b : byte) (ty : string) (rest : bytes) :
  (b = x2b /\ ty = "ok") \/ (b = x2d /\ ty = "error") \/ (b = x3a /\ ty = "int") ->
  readResponse (mkReader (b :: rest) fl) =
    match splitDelim x0a rest with
    | Some (line, tail) => (Return (ty, TrimSpace line, None), mkReader tail fl)
    | None => (Return ("", [], Some fl), mkReader [] fl)
    end.
Proof.
  intros [[-> ->] | [[-> ->] | [-> ->]]]; unfold readResponse; cbn;
    unfold ReadString; cbn; destruct (splitDelim x0a rest) as [[line tail]|];
    reflexivity.
Qed.

Lemma ReadFull_enough (s : bytes) (n : Z) :
  (0 <= n <= Z.of_nat (length s))%Z ->
  ReadFull (mkReader s fl) n =
    (take (Z.to_nat n) s, None, mkReader (drop (Z.to_nat n) s) fl).
Proof.
  intros Hn. unfold ReadFull. cbn.
  destruct (Z.leb_spec n (Z.of_nat (length s))) as [_ | Hlt]; [reflexivity | lia].
Qed.

Lemma discard_two (s : bytes) :
  (let '(_, _, r4) := ReadByte (mkReader s fl) in
   let '(_, _, r5) := ReadByte r4 in r5) = mkReader (drop 2 s) fl.
Proof. destruct s as [| a [| a' s']]; reflexivity. Qed.

Lemma readResponse_dollar (rest : bytes) :
  readResponse (mkReader (x24 :: rest) fl) =
    match splitDelim x0a rest with
    | None => (Return ("", [], Some fl), mkReader [] fl)
    | Some (line, tail) =>
      match Atoi (TrimSpace line) with
      | None =>
        (Return ("", [], Some (Errorf_s "invalid length" (TrimSpace line))),
         mkReader tail fl)
      | Some n =>
        if (n =? -1)%Z then (Return ("null", [], None), mkReader tail fl)
        else if (n <? 0)%Z
        then (Panics "runtime error: makeslice: len out of range", mkReader tail fl)
        else
          match ReadFull (mkReader tail fl) n with
          | (_, Some e, r3) => (Return ("", [], Some e), r3)
          | (data, None, r3) =>
            (Return ("bulk", data, None), mkReader (drop 2 (unread r3)) fl)
          end
      end
    end.
Proof.
  unfold readResponse; cbn. unfold ReadString; cbn.
  destruct (splitDelim x0a rest) as [[line tail]|]; [| reflexivity].
  destruct (Atoi (TrimSpace line)) as [n|]; [| reflexivity].
  destruct (n =? -1)%Z; [reflexivity |].
  destruct (n <? 0)%Z; [reflexivity |].
  unfold ReadFull, setUnread; cbn.
  destruct (n <=? Z.of_nat (length tail))%Z; [| reflexivity].
  destruct (drop (Z.to_nat n) tail) as [| a [| a' s']]; reflexivity.
Qed.

Lemma readResponse_marker (rest : bytes) :
  readResponse (mkReader (xff :: rest) fl) =
    match rest with
    | m0 :: m1 :: m2 :: tail =>
      if Byte.eqb m0 xff && Byte.eqb m1 xff && Byte.eqb m2 xff
      then (Return ("arrow-stream", continuationMarker, None), mkReader tail fl)
      else (Return ("", [], Some (Errorf_X3 "invalid continuation marker" m0 m1 m2)),
            mkReader tail fl)
    | _ =>
      (Return ("", [], Some (Errorf_w "failed to read continuation marker"
                               match rest, fl with
                               | _ :: _, io_EOF => io_ErrUnexpectedEOF
                               | _, e => e
                               end)),
       mkReader [] fl)
    end.
Proof.
  destruct rest as [| m0 [| m1 [| m2 tail]]];
    try (destruct fl; reflexivity).
  unfold readResponse, ReadByte, setUnread; cbn [unread failure].
  rewrite ReadFull_enough by (cbn [length]; lia).
  change (Z.to_nat 3) with 3%nat. cbn.
  destruct (Byte.eqb m0 xff), (Byte.eqb m1 xff), (Byte.eqb m2 xff); reflexivity.
Qed.

End FrameCodec.

(** C1: [readResponse] decides the variant by the first byte alone.  A
    response it returns without error has the type that byte stands for
    (['+'] ok, ['-'] error, [':'] int, ['$'] null or bulk, [0xFF] the
    arrow-stream transition); a complete frame after one of these bytes is
    returned as that variant; any other first byte is the protocol error
    "unknown response type" and no variant, with nothing more consumed. *)
Theorem readResponse_dispatch (b : byte) (rest : bytes) (fl : error) :
  let reader := mkReader (b :: rest) fl in
  (forall ty data rd,
      readResponse reader = (Return (ty, data, None), rd) -> ty ∈ variantsOf b)
  /\ (controlByte b = false ->
      readResponse reader =
        (Return ("", [], Some (Errorf_c "unknown response type" b)), mkReader rest fl))
  /\ (forall line tail, splitDelim x0a rest = Some (line, tail) ->
      (b = x2b ->
       readResponse reader = (Return ("ok", TrimSpace line, None), mkReader tail fl))
      /\ (b = x2d ->
          readResponse reader = (Return ("error", TrimSpace line, None), mkReader tail fl))
      /\ (b = x3a ->
          readResponse reader = (Return ("int", TrimSpace line, None), mkReader tail fl))
      /\ (b = x24 -> Atoi (TrimSpace line) = Some (-1)%Z ->
          readResponse reader = (Return ("null", [], None), mkReader tail fl))
      /\ (b = x24 -> forall n, Atoi (TrimSpace line) = Some n ->
          (0 <= n <= Z.of_nat (length tail))%Z ->
          readResponse reader =
            (Return ("bulk", take (Z.to_nat n) tail, None),
             mkReader (drop (Z.to_nat n + 2) tail) fl)))
  /\ (b = xff -> forall tail, rest = xff :: xff :: xff :: tail ->
      readResponse reader =
        (Return ("arrow-stream", continuationMarker, None), mkReader tail fl)).
Proof.
  cbn zeta. repeat split.
  - (* the variant of a response read without error *)
    intros ty data rd.
    destruct (controlByte b) eqn:Hc.
    + destruct b; try discriminate Hc; clear Hc.
      * (* '$' *)
        rewrite readResponse_dollar.
        destruct (splitDelim x0a rest) as [[line tail]|]; [| discriminate].
        destruct (Atoi (TrimSpace line)) as [n|]; [| discriminate].
        destruct (n =? -1)%Z; [intros [= <- _ _]; set_solver |].
        destruct (n <? 0)%Z; [discriminate |].
        destruct (ReadFull (mkReader tail fl) n) as [[d [e|]] r3];
          [discriminate | intros [= <- _ _]; set_solver].
      * rewrite (readResponse_line fl x2b "ok") by auto.
        destruct (splitDelim x0a rest) as [[line tail]|];
          [intros [= <- _ _]; set_solver | discriminate].
      * rewrite (readResponse_line fl x2d "error") by auto.
        destruct (splitDelim x0a rest) as [[line tail]|];
          [intros [= <- _ _]; set_solver | discriminate].
      * rewrite (readResponse_line fl x3a "int") by auto 6.
        destruct (splitDelim x0a rest) as [[line tail]|];
          [intros [= <- _ _]; set_solver | discriminate].
      * rewrite readResponse_marker.
        destruct rest as [| m0 [| m1 [| m2 tail]]]; try discriminate.
        destruct (Byte.eqb m0 xff && Byte.eqb m1 xff && Byte.eqb m2 xff);
          [intros [= <- _ _]; set_solver | discriminate].
    + destruct b; try discriminate Hc; discriminate.
  - destruct b; try discriminate; reflexivity.
  - intros ->. rewrite (readResponse_line fl x2b "ok") by auto. now rewrite H.
  - intros ->. rewrite (readResponse_line fl x2d "error") by auto. now rewrite H.
  - intros ->. rewrite (readResponse_line fl x3a "int") by auto 6. now rewrite H.
  - intros -> Hn. rewrite readResponse_dollar, H, Hn. reflexivity.
  - intros -> n Hn Hrange. rewrite readResponse_dollar, H, Hn.
    destruct (Z.eqb_spec n (-1)) as [-> | _]; [lia |].
    destruct (Z.ltb_spec n 0) as [Hneg | _]; [lia |].
    rewrite ReadFull_enough by assumption. cbn.
    now rewrite drop_drop.
  - intros -> tail ->. now rewrite readResponse_marker.
Qed.

Lemma readResponse_dispatch_witness :
  readResponse (mkReader (x2b :: bytes_of "OK" ++ CRLF ++ bytes_of ":1") io_EOF) =
    (Return ("ok", bytes_of "OK", None), mkReader (bytes_of ":1") io_EOF)
  /\ readResponse (mkReader (bytes_of "?") io_EOF) =
       (Return ("", [], Some (Errorf_c "unknown response type" x3f)), mkReader [] io_EOF).
Proof.
  split.
  - destruct (readResponse_dispatch x2b (bytes_of "OK" ++ CRLF ++ bytes_of ":1") io_EOF)
      as (_ & _ & Hline & _).
    destruct (Hline (bytes_of "OK" ++ CRLF) (bytes_of ":1") eq_refl) as (Hok & _).
    exact (Hok eq_refl).
  - destruct (readResponse_dispatch x3f [] io_EOF) as (_ & Hunknown & _).
    exact (Hunknown eq_refl).
Defined.

(** A bulk length below -1 is not a response of the protocol: [make] panics
    on it, so [readResponse] neither returns a variant nor an error. *)
Lemma readResponse_negative_length_panics :
  fst (readResponse (mkReader (bytes_of "$-2" ++ CRLF) io_EOF)) =
    Panics "runtime error: makeslice: len out of range".
Proof. reflexivity. Qed.

(** C5: after a first byte 0xFF, [readResponse] reads exactly three more
    bytes.  When all three are 0xFF it returns the arrow-stream transition,
    and [parseArrowIPCFromReader] runs the IPC reader on the marker put back
    before the rest: the very stream the response started with.  When one of
    them differs it fails with the protocol error "invalid continuation
    marker"; in both cases the reader is left after the fourth byte. *)
Theorem continuation_marker `{ArrowIPC} (b1 b2 b3 : byte) (rest : bytes) (fl : error) :
  let reader := mkReader (xff :: b1 :: b2 :: b3 :: rest) fl in
  let after := mkReader rest fl in
  (b1 = xff /\ b2 = xff /\ b3 = xff ->
   readResponse reader = (Return ("arrow-stream", continuationMarker, None), after)
   /\ combinedReader after = reader
   /\ parseArrowIPCFromReader after =
      (match newReaderErr (ipcRead reader), readErr (ipcRead reader) with
       | Some e, _ => ([], Some (Errorf_w "failed to create IPC reader" e))
       | None, Some e => ([], Some (Errorf_w "error reading IPC records" e))
       | None, None => (decoded (ipcRead reader), None)
       end,
       mkReader (drop (consumed (ipcRead reader) - 4) rest) fl))
  /\ (~ (b1 = xff /\ b2 = xff /\ b3 = xff) ->
     readResponse reader =
       (Return ("", [], Some (Errorf_X3 "invalid continuation marker" b1 b2 b3)), after)).
Proof.
  cbn zeta. split.
  - intros (-> & -> & ->). split; [now rewrite readResponse_marker |].
    split; [reflexivity |].
    unfold parseArrowIPCFromReader.
    change (combinedReader (mkReader rest fl))
      with (mkReader (xff :: xff :: xff :: xff :: rest) fl).
    generalize (ipcRead (mkReader (xff :: xff :: xff :: xff :: rest) fl)).
    intros run. now destruct (newReaderErr run), (readErr run).
  - intros Hbad. rewrite readResponse_marker.
    destruct (Byte.eqb b1 xff) eqn:E1; [apply Byte.byte_dec_bl in E1 | reflexivity].
    destruct (Byte.eqb b2 xff) eqn:E2; [apply Byte.byte_dec_bl in E2 | reflexivity].
    destruct (Byte.eqb b3 xff) eqn:E3; [apply Byte.byte_dec_bl in E3 | reflexivity].
    now destruct Hbad.
Qed.

Lemma continuation_marker_witness :
  readResponse (mkReader [xff; xff; xff; xff; x01] io_EOF) =
    (Return ("arrow-stream", continuationMarker, None), mkReader [x01] io_EOF)
  /\ readResponse (mkReader [xff; xff; x00; xff; x01] io_EOF) =
       (Return ("", [], Some (Errorf_X3 "invalid continuation marker" xff x00 xff)),
        mkReader [x01] io_EOF).
Proof.
  split.
  - destruct (continuation_marker (H := emptyStreamIPC) xff xff xff [x01] io_EOF)
      as [Hgood _].
    destruct Hgood as [Hread _]; [repeat split | exact Hread].
  - destruct (continuation_marker (H := emptyStreamIPC) xff x00 xff [x01] io_EOF)
      as [_ Hbad].
    apply Hbad. intros (_ & Hneq & _). discriminate Hneq.
Defined.

(** ** Decimal numerals *)

Lemma digitOf_digitByte (d : N) :
  (d < 10)%N -> digitOf (digitByte d) = Some (Z.of_N d).
Proof.
  intros Hd.
  destruct d as [| p]; [reflexivity |].
  do 4 (destruct p as [p | p |]; try lia; try reflexivity).
Qed.

Lemma parseDigits_app (s t : bytes) (a : Z) :
  parseDigits a (s ++ t) =
    match parseDigits a s with
    | Some v => parseDigits v t
    | None => None
    end.
Proof.
  revert a. induction s as [| b s IH]; intros a; cbn; [reflexivity |].
  destruct (digitOf b); [apply IH | reflexivity].
Qed.

Lemma digitsOf_acc (fuel : nat) (n : N) (acc : bytes) :
  digitsOf fuel n acc = digitsOf fuel n [] ++ acc.
Proof.
  revert n acc. induction fuel as [| fuel IH]; intros n acc; cbn; [reflexivity |].
  destruct (n <? 10)%N; [reflexivity |].
  rewrite (IH _ (_ :: acc)), (IH _ [_]), <- app_assoc. reflexivity.
Qed.

Lemma digitsOf_value (fuel : nat) (n : N) :
  (n < 2 ^ N.of_nat fuel)%N ->
  parseDigits 0 (digitsOf fuel n []) = Some (Z.of_N n).
Proof.
  revert n. induction fuel as [| fuel IH]; intros n Hn.
  - cbn in Hn. assert (n = 0%N) as -> by lia. reflexivity.
  - cbn [digitsOf]. destruct (N.ltb_spec n 10) as [Hlt | Hge].
    + cbn. rewrite N.mod_small by assumption.
      now rewrite digitOf_digitByte by assumption.
    + rewrite digitsOf_acc, parseDigits_app, IH.
      * cbn. rewrite digitOf_digitByte by (apply N.mod_lt; lia).
        f_equal. rewrite (N.div_mod n 10) at 3 by lia. lia.
      * rewrite Nat2N.inj_succ, N.pow_succ_r' in Hn.
        apply N.Div0.div_lt_upper_bound. lia.
Qed.

Lemma decimal_value (n : N) : parseDigits 0 (decimal n) = Some (Z.of_N n).
Proof.
  apply digitsOf_value.
  rewrite Nat2N.inj_succ, N2Nat.id.
  destruct n as [| p]; [reflexivity |].
  apply N.log2_spec. lia.
Qed.

Lemma decimal_nonempty (n : N) : decimal n <> [].
Proof.
  unfold decimal. cbn [digitsOf]. destruct (n <? 10)%N; [discriminate |].
  rewrite digitsOf_acc. now destruct (digitsOf _ _ []).
Qed.

(** C6: for a Query or an Execute command with text [sql], [sendCommand]
    writes exactly "$" N CRLF prefix sql CRLF, with prefix "q:" for Query and
    "x:" for Execute and N the decimal numeral of the byte length of
    prefix+sql, which leaves the final CRLF out: N reads back as that length,
    two more than the length of [sql]. *)
Theorem sendCommand_frame (kind : CommandKind) (sql : bytes) (nc : NetConn) :
  writeErr nc = None ->
  let message := prefixOf kind ++ sql in
  let N := decimal (N.of_nat (length message)) in
  sendCommand (Some nc) (prefixOf kind) sql =
    (Return None,
     Some (mkNetConn (sent nc ++ [x24] ++ N ++ CRLF ++ prefixOf kind ++ sql ++ CRLF)
             None (closeErr nc) (sockClosed nc)))
  /\ prefixOf kind = bytes_of match kind with Query => "q:" | Execute => "x:" end
  /\ parseDigits 0 N = Some (Z.of_nat (length message))
  /\ length message = 2 + length sql.
Proof.
  intros Hw. cbn zeta. repeat split.
  - unfold sendCommand, Write. rewrite Hw. unfold Sprintf_frame, formatInt.
    destruct (Z.ltb_spec (Z.of_nat (length (prefixOf kind ++ sql))) 0) as [Hneg | _];
      [lia |].
    rewrite <- nat_N_Z, N2Z.id, <- app_assoc. reflexivity.
  - now destruct kind.
  - rewrite decimal_value. f_equal. lia.
  - now destruct kind.
Qed.

Lemma sendCommand_frame_witness :
  sendCommand (Some (mkNetConn [] None None false)) cmdQuery (bytes_of "SELECT 1+1") =
    (Return None,
     Some (mkNetConn (bytes_of "$12" ++ CRLF ++ bytes_of "q:SELECT 1+1" ++ CRLF)
             None None false)).
Proof.
  exact (proj1 (sendCommand_frame Query (bytes_of "SELECT 1+1")
                  (mkNetConn [] None None false) eq_refl)).
Defined.

(** ** Trimming *)

Section TrimWith.

Variable width : bytes -> nat.
Hypothesis width_nil : width [] = 0.

Lemma trimWith_suffix (fuel : nat) (s : bytes) :
  exists cut, s = cut ++ trimWith width fuel s.
Proof.
  revert s. induction fuel as [| fuel IH]; intros s; cbn; [now exists [] |].
  destruct (width s) as [| w] eqn:Hw; [now exists [] |].
  destruct (IH (drop (S w) s)) as [cut Hcut].
  exists (take (S w) s ++ cut).
  rewrite <- app_assoc, <- Hcut. symmetry. apply take_drop.
Qed.

Lemma trimWith_done (fuel : nat) (s : bytes) :
  length s <= fuel -> width (trimWith width fuel s) = 0.
Proof.
  revert s. induction fuel as [| fuel IH]; intros s Hlen; cbn.
  - destruct s; [assumption | cbn in Hlen; lia].
  - destruct (width s) as [| w] eqn:Hw; [assumption |].
    apply IH. rewrite length_drop.
    destruct s; [congruence | cbn in *; lia].
Qed.

End TrimWith.

Lemma TrimSpace_within (s : bytes) :
  exists before after, s = before ++ TrimSpace s ++ after.
Proof.
  unfold TrimSpace, TrimRight, TrimLeft.
  destruct (trimWith_suffix spaceWidth (length s) s) as [before Hb].
  set (u := trimWith spaceWidth (length s) s) in *.
  destruct (trimWith_suffix lastSpaceWidth (length u) (rev u)) as [cut Hc].
  exists before, (rev cut).
  rewrite <- rev_app_distr, <- Hc, rev_involutive. exact Hb.
Qed.

Lemma TrimSpace_no_trailing_space (s : bytes) :
  lastSpaceWidth (rev (TrimSpace s)) = 0.
Proof.
  unfold TrimSpace, TrimRight. rewrite rev_involutive.
  apply trimWith_done; [reflexivity | now rewrite length_rev].
Qed.

(** A white-space rune at the start of a string is still there when
    bytes are added after it. *)
Lemma spaceWidth_app (v after : bytes) :
  spaceWidth v <> 0 -> spaceWidth (v ++ after) = spaceWidth v.
Proof.
  destruct v as [| b0 [| b1 [| b2 v]]]; cbn; unfold spaceSeq; intros Hw.
  - congruence.
  - now destruct (asciiSpace b0).
  - destruct (asciiSpace b0); [reflexivity |].
    now destruct (isByte 194 b0 && (isByte 133 b1 || isByte 160 b1)).
  - reflexivity.
Qed.

Lemma TrimSpace_no_leading_space (s : bytes) : spaceWidth (TrimSpace s) = 0.
Proof.
  unfold TrimSpace, TrimLeft.
  pose proof (trimWith_done spaceWidth eq_refl (length s) s (le_n _)) as Hleft.
  set (u := trimWith spaceWidth (length s) s) in *.
  unfold TrimRight.
  destruct (trimWith_suffix lastSpaceWidth (length u) (rev u)) as [cut Hcut].
  set (v := trimWith lastSpaceWidth (length u) (rev u)) in *.
  apply (f_equal (@rev byte)) in Hcut.
  rewrite rev_involutive, rev_app_distr in Hcut.
  destruct (Nat.eq_dec (spaceWidth (rev v)) 0) as [Hz | Hnz]; [exact Hz |].
  apply (spaceWidth_app _ (rev cut)) in Hnz. congruence.
Qed.

(** ** The integer response *)

(** C8 as amended: after a first byte [':'] [readResponse] reads to the
    newline and returns the type "int" with, as payload, the bytes of the
    line with the white space at both ends trimmed; the payload is inside
    the line, neither starts nor ends with white space, and is not parsed. *)
Theorem readResponse_int (rest line tail : bytes) (fl : error) :
  splitDelim x0a rest = Some (line, tail) ->
  readResponse (mkReader (x3a :: rest) fl) =
    (Return ("int", TrimSpace line, None), mkReader tail fl)
  /\ (exists before after, line = before ++ TrimSpace line ++ after)
  /\ spaceWidth (TrimSpace line) = 0
  /\ lastSpaceWidth (rev (TrimSpace line)) = 0.
Proof.
  intros Hline. split; [| split; [| split]].
  - rewrite (readResponse_line fl x3a "int") by auto 6. now rewrite Hline.
  - apply TrimSpace_within.
  - apply TrimSpace_no_leading_space.
  - apply TrimSpace_no_trailing_space.
Qed.

Lemma readResponse_int_witness :
  readResponse (mkReader (x3a :: bytes_of " 42 " ++ CRLF) io_EOF) =
    (Return ("int", bytes_of "42", None), mkReader [] io_EOF).
Proof.
  exact (proj1 (readResponse_int (bytes_of " 42 " ++ CRLF) (bytes_of " 42 " ++ CRLF)
                  [] io_EOF eq_refl)).
Defined.

(** The line ":abc" is returned as an "int" response whose payload, the
    bytes "abc", is no signed decimal integer. *)
Lemma int_payload_not_parsed :
  readResponse (mkReader (x3a :: bytes_of "abc" ++ CRLF) io_EOF) =
    (Return ("int", bytes_of "abc", None), mkReader [] io_EOF)
  /\ Atoi (bytes_of "abc") = None.
Proof. split; reflexivity. Qed.

(** ** Cell extraction *)

(** C7 as amended: a cell the null bitmap marks absent is extracted as
    [nil] without error whatever the type of its column, supported or not,
    and so never as the zero value of that type, whatever is stored under
    the null; a cell that is present is extracted as a value other than
    [nil] when the column's type is supported, and fails with the error
    "unsupported Arrow type" when it is not. *)
Theorem getValueFromColumn_cells (col : Array) (rowIdx : nat) :
  (IsNull col rowIdx = true ->
   getValueFromColumn col rowIdx = (VNil, None)
   /\ zeroValue (typed col) <> Some (fst (getValueFromColumn col rowIdx)))
  /\ (IsNull col rowIdx = false -> supported (typed col) = true ->
      exists v, getValueFromColumn col rowIdx = (v, None) /\ v <> VNil)
  /\ (IsNull col rowIdx = false -> forall goType, typed col = OtherArray goType ->
      getValueFromColumn col rowIdx =
        (VNil, Some (Errorf_T "unsupported Arrow type" goType))).
Proof.
  unfold getValueFromColumn. repeat split.
  - now rewrite H.
  - rewrite H. cbn. now destruct (typed col).
  - intros Hpresent Hsup. rewrite Hpresent.
    destruct (typed col); try discriminate Hsup; eexists; split; try reflexivity;
      discriminate.
  - intros Hpresent goType Hty. now rewrite Hpresent, Hty.
Qed.

Lemma getValueFromColumn_cells_witness :
  getValueFromColumn int64Column 1 = (VNil, None)
  /\ (exists v, getValueFromColumn int64Column 2 = (v, None) /\ v <> VNil)
  /\ getValueFromColumn float16Column 0 =
       (VNil, Some (Errorf_T "unsupported Arrow type" "*array.Float16")).
Proof.
  split; [| split].
  - destruct (getValueFromColumn_cells int64Column 1) as (Hnull & _).
    exact (proj1 (Hnull eq_refl)).
  - destruct (getValueFromColumn_cells int64Column 2) as (_ & Hvalue & _).
    exact (Hvalue eq_refl eq_refl).
  - destruct (getValueFromColumn_cells float16Column 0) as (_ & _ & Hother).
    exact (Hother eq_refl _ eq_refl).
Defined.

(** The null cell of a half-precision float column, a type outside the
    supported set, is extracted as [nil] and no error: [IsNull] is asked
    before the type switch.  The present cell after it gives the error. *)
Lemma getValueFromColumn_null_float16 :
  supported (typed float16NullFirst) = false
  /\ IsNull float16NullFirst 0 = true
  /\ getValueFromColumn float16NullFirst 0 = (VNil, None)
  /\ getValueFromColumn float16NullFirst 1 =
       (VNil, Some (Errorf_T "unsupported Arrow type" "*array.Float16")).
Proof. repeat split. Qed.

(** ** The session *)

(** C3 as amended: [Close] on a [Conn] that is already closed returns the
    error "luna: connection already closed" and leaves the [Conn] as it was. *)
Theorem Conn_Close_closed (c : Conn.t) :
  Conn.closed c = true ->
  Conn.Close c = (Some (Errorf_0 "luna: connection already closed"), c).
Proof. intros Hc. unfold Conn.Close. now rewrite Hc. Qed.

Lemma Conn_Close_closed_witness :
  Conn.Close closedSession =
    (Some (Errorf_0 "luna: connection already closed"), closedSession).
Proof. exact (Conn_Close_closed closedSession eq_refl). Defined.

(** The second [Close] of a session is an error. *)
Lemma Conn_Close_twice_is_error :
  Conn.closed closedSession = true
  /\ fst (Conn.Close (session [])) = None
  /\ fst (Conn.Close closedSession) <> None.
Proof. repeat split. discriminate. Qed.



(** ** Transactions *)

(** C9 as amended: [BeginTx] on a session whose transaction flag is set
    returns the error "luna: there is already an open transaction", does not
    panic and changes nothing.  [Commit] and [Rollback] on a transaction that
    is not open, its connection gone or the flag of its session clear, do
    not return: they panic, with the messages "extra Commit" and "extra
    Rollback", and change nothing. *)
Theorem transaction_misuse `{ArrowIPC} (h : gmap ptr Conn.t) :
  (forall p cn, h !! p = Some cn -> Conn.tx cn = true ->
     Conn.BeginTx h p =
       (Return (None, Some (Errorf_0 "luna: there is already an open transaction")), h))
  /\ (forall t : Tx,
       c t = None \/ (exists p cn, c t = Some p /\ h !! p = Some cn /\ Conn.tx cn = false) ->
       tx.Commit h t = (Panics tx.extraCommit, t, h)
       /\ tx.Rollback h t = (Panics tx.extraRollback, t, h)).
Proof.
  split.
  - intros p cn Hp Htx. unfold Conn.BeginTx. now rewrite Hp, Htx.
  - intros t [Hnil | (p & cn & Hc & Hp & Htx)]; unfold tx.Commit, tx.Rollback.
    + now rewrite Hnil.
    + now rewrite Hc, Hp, Htx.
Qed.

Lemma transaction_misuse_witness :
  Conn.BeginTx (H := emptyStreamIPC) oneSessionInTx 0 =
    (Return (None, Some (Errorf_0 "luna: there is already an open transaction")),
     oneSessionInTx)
  /\ tx.Commit (H := emptyStreamIPC) oneSession staleTx =
       (Panics tx.extraCommit, staleTx, oneSession)
  /\ tx.Rollback (H := emptyStreamIPC) oneSession (mkTx None) =
       (Panics tx.extraRollback, mkTx None, oneSession).
Proof.
  split; [| split].
  - exact (proj1 (transaction_misuse (H := emptyStreamIPC) oneSessionInTx)
             0 (Conn.setTx (session []) true) eq_refl eq_refl).
  - refine (proj1 (proj2 (transaction_misuse (H := emptyStreamIPC) oneSession) staleTx _)).
    right. exists 0, (session []). repeat split.
  - refine (proj2 (proj2 (transaction_misuse (H := emptyStreamIPC) oneSession) (mkTx None) _)).
    left. reflexivity.
Defined.

(** [Commit] with no transaction open ends in a panic, not in an error
    returned to the caller. *)
Lemma Commit_without_transaction_panics :
  Conn.tx (session []) = false
  /\ fst (fst (tx.Commit (H := emptyStreamIPC) oneSession staleTx)) =
       Panics tx.extraCommit
  /\ forall err, fst (fst (tx.Commit (H := emptyStreamIPC) oneSession staleTx)) <>
                 Return (Some err).
Proof. repeat split. intros err. discriminate. Qed.

(** ** The result cursor *)

Lemma nextLoop_keeps (rest : list ArrowRecord) (r : Rows.t) (dest : list Value) :
  let '(_, r', _) := Rows.nextLoop rest r dest in
  Rows.records r' = Rows.records r /\ Rows.closed r' = Rows.closed r.
Proof.
  revert r. induction rest as [| record rest IH]; intros r; cbn; [now split |].
  destruct (Rows.rowIdx r <? NumRows record)%Z.
  - destruct (Rows.fillRow _ _ _ _) as [[| err |] dest']; now split.
  - exact (IH _).
Qed.

Lemma Next_keeps (r : Rows.t) (dest : list Value) :
  let '(_, r', _) := Rows.Next r dest in
  Rows.records r' = Rows.records r /\ Rows.closed r' = Rows.closed r.
Proof.
  unfold Rows.Next. destruct (Rows.closed r) eqn:Hc; [now split |].
  rewrite <- Hc. apply nextLoop_keeps.
Qed.

Lemma nextCalls_keeps (n : nat) (r : Rows.t) (dest : list Value) :
  Rows.records (snd (nextCalls n r dest)) = Rows.records r
  /\ Rows.closed (snd (nextCalls n r dest)) = Rows.closed r.
Proof.
  revert r dest. induction n as [| n IH]; intros r dest; cbn; [now split |].
  pose proof (Next_keeps r dest) as Hstep.
  destruct (Rows.Next r dest) as [[res r'] dest'].
  specialize (IH r' dest').
  destruct (nextCalls n r' dest') as [calls final]. cbn in *.
  destruct Hstep as [Hrecs Hclosed]. rewrite <- Hrecs, <- Hclosed. exact IH.
Qed.

Lemma closeCalls_closed (n : nat) (r : Rows.t) :
  Rows.closed r = true -> closeCalls n r = (replicate n None, r, []).
Proof.
  intros Hc. induction n as [| n IH]; cbn; [reflexivity |].
  unfold Rows.Close. now rewrite Hc, IH.
Qed.

(** C10: [Close] of the cursor is idempotent.  After any number of calls
    of [Next], the first [Close] returns no error, releases every record of
    the cursor, each one time, and leaves the cursor closed and without
    records; every later [Close] returns no error, releases nothing and
    changes nothing, so that any number of calls release the records once
    in all. *)
Theorem Rows_Close_idempotent (recs : list ArrowRecord) (k : nat) (dest : list Value)
    (n : nat) :
  let r := snd (nextCalls k (Rows.newRowsFromArrow recs) dest) in
  let done := Rows.mk [] (Rows.recordIdx r) (Rows.rowIdx r) (Rows.columns r) true in
  Rows.Close r = (None, done, recs)
  /\ Rows.Close done = (None, done, [])
  /\ closeCalls (S n) r = (replicate (S n) None, done, recs).
Proof.
  cbn zeta.
  destruct (nextCalls_keeps k (Rows.newRowsFromArrow recs) dest) as [Hrecs Hopen].
  set (r := snd (nextCalls k (Rows.newRowsFromArrow recs) dest)) in *.
  cbn in Hrecs, Hopen.
  assert (Rows.Close r =
            (None, Rows.mk [] (Rows.recordIdx r) (Rows.rowIdx r) (Rows.columns r) true,
             recs)) as Hfirst
    by (unfold Rows.Close; now rewrite Hopen, Hrecs).
  split; [exact Hfirst |]. split; [reflexivity |].
  cbn [closeCalls]. rewrite Hfirst, closeCalls_closed by reflexivity.
  now rewrite app_nil_r.
Qed.

Section Cursor.

Variable dest0 : list Value.

(** What the traversal asks of a batch: its cells are extracted without
    error and [dest] has a slot for each of its columns. *)
Let fits (rec : ArrowRecord) : Prop :=
  decodable rec = true /\ NumCols rec <= length dest0.

Lemma decodable_row (rec : ArrowRecord) (i : nat) :
  decodable rec = true -> i < Z.to_nat (NumRows rec) ->
  Forall (fun col => snd (getValueFromColumn col i) = None) (ColumnArrays rec).
Proof.
  intros Hdec Hi. unfold decodable in Hdec.
  rewrite forallb_forall in Hdec.
  specialize (Hdec i). rewrite in_seq, forallb_forall in Hdec.
  apply Forall_forall. intros col Hcol.
  apply list_elem_of_In, Hdec in Hcol; [| lia].
  now destruct (snd (getValueFromColumn col i)).
Qed.

Lemma fillRow_ok (cols : list Array) (i row : nat) (dest : list Value) :
  Forall (fun col => snd (getValueFromColumn col row) = None) cols ->
  i + length cols <= length dest ->
  Rows.fillRow cols i row dest =
    (Rows.Filled,
     take i dest ++ map (fun col => fst (getValueFromColumn col row)) cols
       ++ drop (i + length cols) dest).
Proof.
  revert i dest. induction cols as [| col cols IH]; intros i dest Hok Hlen;
    cbn [Rows.fillRow map length app] in *.
  - now rewrite Nat.add_0_r, take_drop.
  - inversion_clear Hok as [| ? ? Hcol Hcols].
    destruct (getValueFromColumn col row) as [val err]. cbn [fst snd] in *.
    subst err.
    destruct (Nat.ltb_spec i (length dest)) as [Hi | Hi]; [| lia].
    rewrite IH; [| assumption | rewrite length_insert; lia].
    rewrite (take_S_r _ _ val) by now apply list_lookup_insert_eq.
    rewrite take_insert_ge by lia.
    rewrite drop_insert_lt by lia.
    rewrite <- app_assoc. cbn [app].
    now replace (S i + length cols) with (i + S (length cols)) by lia.
Qed.

Lemma pendingFrom_start (rest : list ArrowRecord) : pendingFrom rest 0 = allRows rest.
Proof. now destruct rest. Qed.

Lemma batchRows_length (rec : ArrowRecord) :
  length (batchRows rec) = Z.to_nat (NumRows rec).
Proof. unfold batchRows. now rewrite length_map, length_seq. Qed.

Lemma batchRows_drop (rec : ArrowRecord) (i : nat) :
  i < Z.to_nat (NumRows rec) ->
  drop i (batchRows rec) = rowValues rec i :: drop (S i) (batchRows rec).
Proof.
  intros Hi. apply drop_S. unfold batchRows.
  rewrite list_lookup_fmap, lookup_seq_lt by assumption. reflexivity.
Qed.

(** One call of [Next] with a row pending stores that row and goes on
    to what follows it. *)
Lemma nextLoop_row (rest : list ArrowRecord) (r : Rows.t) (dest : list Value)
    (row : list Value) (rows : list (list Value)) :
  drop (Rows.recordIdx r) (Rows.records r) = rest ->
  (0 <= Rows.rowIdx r)%Z ->
  length dest = length dest0 ->
  Forall fits rest ->
  pendingFrom rest (Rows.rowIdx r) = row :: rows ->
  exists r' dest',
    Rows.nextLoop rest r dest = (Return None, r', dest')
    /\ take (length row) dest' = row
    /\ length dest' = length dest0
    /\ pending r' = rows
    /\ (0 <= Rows.rowIdx r')%Z.
Proof.
  revert r. induction rest as [| rec rest IH]; intros r Hrest Hidx Hlen Hfits Hpend;
    [discriminate |].
  inversion_clear Hfits as [| ? ? [Hdec Hcols] Hfits'].
  cbn [Rows.nextLoop pendingFrom] in *.
  destruct (Z.ltb_spec (Rows.rowIdx r) (NumRows rec)) as [Hlt | Hge].
  - assert (Z.to_nat (Rows.rowIdx r) < Z.to_nat (NumRows rec)) as Hi by lia.
    rewrite batchRows_drop in Hpend by assumption.
    injection Hpend as <- <-.
    rewrite fillRow_ok by (try apply decodable_row; unfold NumCols in *; cbn; lia || assumption).
    eexists _, _. split; [reflexivity |].
    rewrite take_0. cbn [app Nat.add].
    split; [| split; [| split]].
    + unfold rowValues. apply take_app_length.
    + rewrite length_app, length_map, length_drop. unfold NumCols in Hcols. lia.
    + unfold pending. cbn. rewrite Hrest. cbn.
      now rewrite Z2Nat.inj_add, Nat.add_1_r by lia.
    + cbn. lia.
  - rewrite drop_ge in Hpend by (rewrite batchRows_length; lia).
    cbn in Hpend.
    apply (IH (Rows.mk (Rows.records r) (S (Rows.recordIdx r)) 0
                 (Rows.columns r) (Rows.closed r))); cbn; try assumption; try lia.
    + change (S (Rows.recordIdx r)) with (1 + Rows.recordIdx r).
      now rewrite Nat.add_comm, <- drop_drop, Hrest.
    + now rewrite pendingFrom_start.
Qed.

(** One call of [Next] with no row pending returns [io.EOF] and leaves
    no row pending. *)
Lemma nextLoop_eof (rest : list ArrowRecord) (r : Rows.t) (dest : list Value) :
  drop (Rows.recordIdx r) (Rows.records r) = rest ->
  (0 <= Rows.rowIdx r)%Z ->
  pendingFrom rest (Rows.rowIdx r) = [] ->
  exists r',
    Rows.nextLoop rest r dest = (Return (Some io_EOF), r', dest)
    /\ pending r' = []
    /\ (0 <= Rows.rowIdx r')%Z.
Proof.
  revert r. induction rest as [| rec rest IH]; intros r Hrest Hidx Hpend.
  - exists r. unfold pending. now rewrite Hrest.
  - cbn [Rows.nextLoop pendingFrom] in *.
    apply app_eq_nil in Hpend as [Hbatch Hrows].
    destruct (Z.ltb_spec (Rows.rowIdx r) (NumRows rec)) as [Hlt | Hge].
    + rewrite batchRows_drop in Hbatch by lia. discriminate.
    + apply (IH (Rows.mk (Rows.records r) (S (Rows.recordIdx r)) 0
                   (Rows.columns r) (Rows.closed r))); cbn; try lia.
      * change (S (Rows.recordIdx r)) with (1 + Rows.recordIdx r).
        now rewrite Nat.add_comm, <- drop_drop, Hrest.
      * now rewrite pendingFrom_start.
Qed.

End Cursor.

Lemma allRows_length (recs : list ArrowRecord) : length (allRows recs) = totalRows recs.
Proof.
  unfold allRows, totalRows. induction recs as [| rec recs IH]; cbn; [reflexivity |].
  now rewrite length_app, batchRows_length, IH.
Qed.

Lemma pending_fresh (recs : list ArrowRecord) :
  pending (Rows.newRowsFromArrow recs) = allRows recs.
Proof. unfold pending. cbn. apply pendingFrom_start. Qed.

(** The calls of [Next] from a cursor that is open: one success for each
    pending row, in order, then [io.EOF] for good. *)
Lemma nextCalls_pending (dest0 : list Value) (n : nat) (r : Rows.t) (dest : list Value) :
  Rows.closed r = false ->
  (0 <= Rows.rowIdx r)%Z ->
  length dest = length dest0 ->
  Forall (fun rec => decodable rec = true /\ NumCols rec <= length dest0)
         (Rows.records r) ->
  let calls := fst (nextCalls n r dest) in
  map fst calls =
    replicate (min n (length (pending r))) (Return None)
      ++ replicate (n - length (pending r)) (Return (Some io_EOF))
  /\ forall k row, pending r !! k = Some row -> k < n ->
       exists d, calls !! k = Some (Return None, d) /\ take (length row) d = row.
Proof.
  revert r dest. induction n as [| n IH]; intros r dest Hopen Hidx Hlen Hfits;
    cbn zeta; [split; [reflexivity | intros; lia] |].
  cbn [nextCalls]. unfold Rows.Next. rewrite Hopen.
  pose proof (nextLoop_keeps (drop (Rows.recordIdx r) (Rows.records r)) r dest) as Hkeep.
  destruct (pending r) as [| row rows] eqn:Hpend.
  - destruct (nextLoop_eof _ r dest eq_refl Hidx Hpend) as (r' & Hnext & Hpend' & Hidx').
    rewrite Hnext in *. destruct Hkeep as [Hrecs Hclosed].
    destruct (IH r' dest) as [Hstatus _]; try congruence.
    destruct (nextCalls n r' dest) as [calls final]. cbn in *.
    rewrite Hstatus, Hpend'. cbn.
    split; [now rewrite Nat.min_0_r, Nat.sub_0_r | intros; discriminate].
  - destruct (nextLoop_row dest0 _ r dest row rows eq_refl Hidx Hlen)
      as (r' & dest' & Hnext & Hrow & Hlen' & Hpend' & Hidx');
      [now apply Forall_drop | exact Hpend |].
    rewrite Hnext in *. destruct Hkeep as [Hrecs Hclosed].
    destruct (IH r' dest') as [Hstatus Hrows]; try congruence.
    destruct (nextCalls n r' dest') as [calls final]. cbn in *.
    rewrite Hstatus, Hpend'. split; [reflexivity |].
    intros [| k] row' Hk Hn; cbn in *.
    + injection Hk as <-. now exists dest'.
    + rewrite Hpend' in Hrows. apply Hrows; [assumption | lia].
Qed.

(** C2 as amended: for batches whose cells are all extracted without
    error and a [dest] with a slot for every column, the rows of the batches
    number [R], the sum of the batches' row counts; [n] calls of [Next] from
    a fresh cursor succeed the first [R] times and return [io.EOF] every time
    after; and the k-th success has stored the k-th row in batch order then
    row order, so that no row is visited twice or left out where a batch
    ends. *)
Theorem Next_visits_every_row (recs : list ArrowRecord) (dest : list Value) (n : nat) :
  Forall (fun rec => decodable rec = true /\ NumCols rec <= length dest) recs ->
  let calls := fst (nextCalls n (Rows.newRowsFromArrow recs) dest) in
  let R := totalRows recs in
  length (allRows recs) = R
  /\ map fst calls =
       replicate (min n R) (Return None) ++ replicate (n - R) (Return (Some io_EOF))
  /\ forall k row, allRows recs !! k = Some row -> k < n ->
       exists d, calls !! k = Some (Return None, d) /\ take (length row) d = row.
Proof.
  intros Hfits. cbn zeta.
  split; [apply allRows_length |].
  rewrite <- allRows_length, <- pending_fresh.
  apply (nextCalls_pending dest); cbn; try reflexivity; assumption.
Qed.

Lemma Next_visits_every_row_witness :
  let calls := fst (nextCalls 5 (Rows.newRowsFromArrow sampleBatches) [VNil; VNil]) in
  length (allRows sampleBatches) = 3
  /\ map fst calls =
       [Return None; Return None; Return None;
        Return (Some io_EOF); Return (Some io_EOF)]
  /\ forall k row, allRows sampleBatches !! k = Some row -> k < 5 ->
       exists d, calls !! k = Some (Return None, d) /\ take (length row) d = row.
Proof.
  apply (Next_visits_every_row sampleBatches [VNil; VNil] 5).
  repeat (constructor; [split; [reflexivity | cbn; lia] |]). constructor.
Defined.

(** The rows the sample batches are read as, the null cell as [nil]. *)
Lemma nextCalls_sample :
  fst (nextCalls 4 (Rows.newRowsFromArrow sampleBatches) [VNil; VNil]) =
    [(Return None, [VInt64 7; VString (bytes_of "ada")]);
     (Return None, [VNil; VString (bytes_of "bob")]);
     (Return None, [VInt64 7; VString (bytes_of "ada")]);
     (Return (Some io_EOF), [VInt64 7; VString (bytes_of "ada")])].
Proof. reflexivity. Qed.

(** One batch of one row whose only cell is present in a column of an
    unsupported type: no call of [Next] succeeds and none returns [io.EOF],
    each returns the decode error. *)
Lemma Next_unsupported_column_fails :
  totalRows float16Batch = 1
  /\ map fst (fst (nextCalls 2 (Rows.newRowsFromArrow float16Batch) [VNil])) =
       [Return (Some (Errorf_T "unsupported Arrow type" "*array.Float16"));
        Return (Some (Errorf_T "unsupported Arrow type" "*array.Float16"))].
Proof. split; reflexivity. Qed.

(** A [dest] shorter than the batch is wide makes [Next] panic at the
    first column that has no place in it. *)
Lemma Next_short_dest_panics :
  map fst (fst (nextCalls 1 (Rows.newRowsFromArrow sampleBatches) [VNil])) =
    [Panics "runtime error: index out of range [1] with length 1"]
  /\ map fst (fst (nextCalls 1 (Rows.newRowsFromArrow sampleBatches) [])) =
       [Panics "runtime error: index out of range [0] with length 0"].
Proof. split; reflexivity. Qed.


(** * Further properties of the driver *)

(** ** The in-memory reader *)

Lemma readMany_from (sizes : list nat) (data : bytes) (pos : nat) :
  pos <= length data ->
  let results := fst (readMany sizes (bytesReader.mk data pos)) in
  let final := snd (readMany sizes (bytesReader.mk data pos)) in
  concat (map fst results) = take (sum_list sizes) (drop pos data)
  /\ bytesReader.data final = data
  /\ bytesReader.pos final = min (pos + sum_list sizes) (length data)
  /\ forall k copied err, results !! k = Some (copied, err) ->
       err = if Nat.leb (length data) (pos + sum_list (take k sizes))
             then Some io_EOF else None.
Proof.
  revert pos. induction sizes as [| n sizes IH]; intros pos Hpos; cbn zeta.
  - cbn. repeat split; [lia | intros; discriminate].
  - cbn [readMany]. unfold bytesReader.Read. cbn [bytesReader.data bytesReader.pos].
    destruct (Nat.leb_spec (length data) pos) as [Hend | Hmore].
    + assert (pos = length data) as -> by lia.
      specialize (IH (length data) (le_n _)). cbn zeta in IH.
      destruct (readMany sizes (bytesReader.mk data (length data))) as [results final].
      cbn in *. destruct IH as (Hcat & Hdata & Hfinal & Herr).
      rewrite Hcat, drop_all, !take_nil.
      repeat split; [assumption | lia |].
      intros [| k] copied err Hk; cbn in *.
      * injection Hk as <- <-. now rewrite Nat.add_0_r, Nat.leb_refl.
      * rewrite (Herr _ _ _ Hk).
        destruct (Nat.leb_spec (length data) (length data + sum_list (take k sizes)));
          destruct (Nat.leb_spec (length data)
                      (length data + (n + sum_list (take k sizes)))); (reflexivity || lia).
    + set (copied := take n (drop pos data)).
      assert (length copied = min n (length data - pos)) as Hlen
        by (unfold copied; now rewrite length_take, length_drop).
      specialize (IH (pos + length copied) ltac:(lia)). cbn zeta in IH.
      destruct (readMany sizes (bytesReader.mk data (pos + length copied)))
        as [results final].
      cbn in *. destruct IH as (Hcat & Hdata & Hfinal & Herr).
      repeat split; [| assumption | lia |].
      * rewrite Hcat, <- drop_drop, <- take_take_drop. f_equal.
        destruct (Nat.le_gt_cases n (length data - pos)) as [Hfit | Hshort].
        -- now rewrite Hlen, Nat.min_l by lia.
        -- rewrite !drop_ge by (rewrite length_drop; lia). reflexivity.
      * intros [| k] copied' err Hk; cbn in *.
        -- injection Hk as <- <-. rewrite Nat.add_0_r.
           destruct (Nat.leb_spec (length data) pos); [lia | reflexivity].
        -- rewrite (Herr _ _ _ Hk).
           destruct (Nat.leb_spec (length data)
                       (pos + length copied + sum_list (take k sizes)));
             destruct (Nat.leb_spec (length data)
                         (pos + (n + sum_list (take k sizes)))); (reflexivity || lia).
Qed.

(** X1: reading a [bytesReader] from its start with buffers of any sizes
    returns the bytes of its slice in order, nothing else: the chunks put
    together are the first bytes of the slice, as many as the buffers hold;
    a call returns [io.EOF] exactly when every byte was read before it. *)
Theorem bytesReader_reads_slice (data : bytes) (sizes : list nat) :
  let results := fst (readMany sizes (bytesReader.mk data 0)) in
  let final := snd (readMany sizes (bytesReader.mk data 0)) in
  concat (map fst results) = take (sum_list sizes) data
  /\ bytesReader.pos final = min (sum_list sizes) (length data)
  /\ forall k copied err, results !! k = Some (copied, err) ->
       err = if Nat.leb (length data) (sum_list (take k sizes))
             then Some io_EOF else None.
Proof.
  destruct (readMany_from sizes data 0 (Nat.le_0_l _)) as (Hcat & _ & Hpos & Herr).
  cbn zeta. now rewrite drop_0 in Hcat.
Qed.

(** ** A command frame read back *)

Lemma parseDigits_digits (s : bytes) (a v : Z) :
  parseDigits a s = Some v -> Forall (fun b => is_Some (digitOf b)) s.
Proof.
  revert a. induction s as [| b s IH]; intros a Hv; [constructor |].
  cbn in Hv. destruct (digitOf b) as [d |] eqn:Hd; [| discriminate].
  constructor; [now rewrite Hd | eauto].
Qed.

Lemma decimal_digits (n : N) : Forall (fun b => is_Some (digitOf b)) (decimal n).
Proof. exact (parseDigits_digits _ _ _ (decimal_value n)). Qed.

Lemma digit_bytes (b : byte) :
  is_Some (digitOf b) ->
  asciiSpace b = false /\ isByte 45 b = false /\ isByte 43 b = false
  /\ Byte.eqb b x0a = false /\ isByte 194 b = false /\ isByte 225 b = false
  /\ isByte 226 b = false /\ isByte 227 b = false /\ isByte 133 b = false
  /\ isByte 160 b = false /\ isByte 128 b = false /\ isByte 159 b = false
  /\ generalPunctSpace b = false.
Proof.
  intros [d Hd]. destruct b; try discriminate Hd; repeat split; reflexivity.
Qed.

(** A decimal digit is no sign, no newline, and no part of white space. *)
Lemma digit_plain (b : byte) :
  is_Some (digitOf b) ->
  isByte 45 b = false /\ isByte 43 b = false /\ Byte.eqb b x0a = false
  /\ (forall b1 b2, spaceSeq b b1 b2 = 0)
  /\ (forall t, lastSpaceWidth (b :: t) = 0).
Proof.
  intros Hb.
  destruct (digit_bytes b Hb)
    as (Hsp & Hminus & Hplus & Hnl & H194 & H225 & H226 & H227 & H133 & H160
        & H128 & H159 & Hgp).
  repeat split; try assumption.
  - intros b1 b2. unfold spaceSeq. rewrite Hsp, H194, H225, H226, H227. cbn.
    now destruct b1, b2.
  - intros t. unfold lastSpaceWidth, spaceSeq.
    rewrite Hsp, H133, H160, H128, H159, Hgp. cbn [orb].
    destruct t as [| c1 [| c2 t]]; [reflexivity | |]; rewrite ?andb_false_r.
    + now destruct (asciiSpace c1).
    + destruct (asciiSpace c1); cbn; destruct (asciiSpace c2); try reflexivity;
        now destruct (isByte 194 c2 && (isByte 133 c1 || isByte 160 c1)).
Qed.

Lemma Atoi_decimal (n : N) :
  (Z.of_N n <= maxInt)%Z -> Atoi (decimal n) = Some (Z.of_N n).
Proof.
  intros Hmax. pose proof (decimal_value n) as Hv.
  pose proof (decimal_digits n) as Hd.
  destruct (decimal n) as [| b t] eqn:Hdec; [now apply decimal_nonempty in Hdec |].
  inversion_clear Hd as [| ? ? Hb _].
  destruct (digit_plain b Hb) as (Hminus & Hplus & _).
  unfold Atoi. rewrite Hminus, Hplus. cbn [orb]. rewrite Hv.
  destruct (Z.leb_spec minInt (Z.of_N n)) as [_ | Hlow]; [| unfold minInt in Hlow; lia].
  destruct (Z.leb_spec (Z.of_N n) maxInt) as [_ | Hhigh]; [reflexivity | lia].
Qed.

Lemma splitDelim_after_digits (ds rest : bytes) :
  Forall (fun b => is_Some (digitOf b)) ds ->
  splitDelim x0a (ds ++ CRLF ++ rest) = Some (ds ++ CRLF, rest).
Proof.
  induction 1 as [| b ds Hb _ IH]; [reflexivity |].
  destruct (digit_plain b Hb) as (_ & _ & Hnl & _).
  cbn [app splitDelim]. rewrite Hnl. cbn [app] in IH. now rewrite IH.
Qed.

Lemma TrimSpace_digits_line (ds : bytes) :
  ds <> [] -> Forall (fun b => is_Some (digitOf b)) ds ->
  TrimSpace (ds ++ CRLF) = ds.
Proof.
  intros Hne Hds. unfold TrimSpace.
  assert (TrimLeft (ds ++ CRLF) = ds ++ CRLF) as ->.
  { destruct Hds as [| b ds Hb _]; [congruence |].
    destruct (digit_plain b Hb) as (_ & _ & _ & Hseq & _).
    unfold TrimLeft. cbn. now rewrite Hseq. }
  unfold TrimRight. rewrite rev_app_distr, length_app. cbn [rev app length CRLF].
  rewrite Nat.add_comm. cbn [Nat.add trimWith lastSpaceWidth asciiSpace drop].
  apply Forall_rev in Hds.
  destruct (rev ds) as [| b t] eqn:Hrev.
  { apply (f_equal (@rev byte)) in Hrev. rewrite rev_involutive in Hrev.
    cbn in Hrev. congruence. }
  inversion_clear Hds as [| ? ? Hb _].
  destruct (digit_plain b Hb) as (_ & _ & _ & _ & Hlast).
  assert (length ds = S (length t)) as ->
    by (rewrite <- (length_rev ds), Hrev; reflexivity).
  rewrite ?drop_0. cbn [trimWith]. rewrite Hlast.
  rewrite <- Hrev. apply rev_involutive.
Qed.

(** X2: the frame [sendCommand] writes is a bulk string [readResponse]
    reads back: read from a stream that starts with the bytes written,
    [readResponse] returns the type "bulk" with the payload prefix+sql and
    leaves the reader at the byte after the frame. *)
Theorem command_frame_reads_back (cmd sql rest : bytes) (fl : error) (nc : NetConn) :
  writeErr nc = None ->
  (Z.of_nat (length (cmd ++ sql)) <= maxInt)%Z ->
  sendCommand (Some nc) cmd sql =
    (Return None, Some (sending nc (commandFrame cmd sql)))
  /\ readResponse (mkReader (commandFrame cmd sql ++ rest) fl) =
       (Return ("bulk", cmd ++ sql, None), mkReader rest fl).
Proof.
  intros Hw Hmax. split.
  - unfold sendCommand, Write, sending, commandFrame. now rewrite Hw.
  - unfold commandFrame, Sprintf_frame, formatInt.
    set (message := cmd ++ sql) in *.
    destruct (Z.ltb_spec (Z.of_nat (length message)) 0) as [Hneg | _]; [lia |].
    rewrite <- nat_N_Z, N2Z.id. rewrite <- nat_N_Z in Hmax.
    set (n := N.of_nat (length message)) in *.
    cbn [app]. rewrite <- !app_assoc, readResponse_dollar.
    rewrite splitDelim_after_digits by apply decimal_digits.
    rewrite TrimSpace_digits_line by (apply decimal_nonempty || apply decimal_digits).
    rewrite Atoi_decimal by assumption.
    destruct (Z.eqb_spec (Z.of_N n) (-1)) as [Hm | _]; [lia |].
    destruct (Z.ltb_spec (Z.of_N n) 0) as [Hneg | _]; [lia |].
    rewrite ReadFull_enough by (rewrite length_app; unfold n; lia).
    cbn [unread]. unfold n. rewrite N2Z.inj_iff || idtac.
    rewrite nat_N_Z, Nat2Z.id.
    rewrite take_app_length, drop_app_length. reflexivity.
Qed.

Lemma command_frame_reads_back_witness :
  readResponse
    (mkReader (bytes_of "$12" ++ CRLF ++ bytes_of "q:SELECT 1+1" ++ CRLF ++ bytes_of "+OK")
       io_EOF) =
    (Return ("bulk", bytes_of "q:SELECT 1+1", None), mkReader (bytes_of "+OK") io_EOF).
Proof.
  refine (proj2 (command_frame_reads_back cmdQuery (bytes_of "SELECT 1+1")
                   (bytes_of "+OK") io_EOF freshSocket eq_refl _)).
  cbn. unfold maxInt. lia.
Defined.

(** ** What [readResponse] consumes *)

Lemma splitDelim_app (delim : byte) (s line tail : bytes) :
  splitDelim delim s = Some (line, tail) -> s = line ++ tail.
Proof.
  revert line. induction s as [| b s IH]; intros line; cbn; [discriminate |].
  destruct (Byte.eqb b delim); [now intros [= <- <-] |].
  destruct (splitDelim delim s) as [[line' tail'] |]; [| discriminate].
  intros [= <- <-]. cbn. f_equal. now apply IH.
Qed.

Lemma readResponse_default (b : byte) (rest : bytes) (fl : error) :
  controlByte b = false ->
  readResponse (mkReader (b :: rest) fl) =
    (Return ("", [], Some (Errorf_c "unknown response type" b)), mkReader rest fl).
Proof. destruct b; try discriminate; reflexivity. Qed.

Lemma readResponse_after_first (b : byte) (rest : bytes) (fl : error) :
  failure (snd (readResponse (mkReader (b :: rest) fl))) = fl
  /\ unread (snd (readResponse (mkReader (b :: rest) fl))) `suffix_of` rest.
Proof.
  destruct (controlByte b) eqn:Hc;
    [| now rewrite readResponse_default by assumption].
  destruct b; try discriminate Hc; clear Hc.
  - rewrite readResponse_dollar.
    destruct (splitDelim x0a rest) as [[line tail] |] eqn:Hline;
      [| split; [reflexivity | apply suffix_nil]].
    apply splitDelim_app in Hline as ->.
    destruct (Atoi (TrimSpace line)) as [n |];
      [| split; [reflexivity | now apply suffix_app_r]].
    destruct (n =? -1)%Z; [split; [reflexivity | now apply suffix_app_r] |].
    destruct (n <? 0)%Z; [split; [reflexivity | now apply suffix_app_r] |].
    unfold ReadFull. cbn [unread failure setUnread].
    destruct (n <=? Z.of_nat (length tail))%Z; cbn;
      (split; [reflexivity |]); apply suffix_app_r.
    + rewrite drop_drop. apply suffix_drop.
    + apply suffix_nil.
  - rewrite (readResponse_line fl x2b "ok") by auto.
    destruct (splitDelim x0a rest) as [[line tail] |] eqn:Hline;
      [| split; [reflexivity | apply suffix_nil]].
    apply splitDelim_app in Hline as ->. split; [reflexivity | now apply suffix_app_r].
  - rewrite (readResponse_line fl x2d "error") by auto.
    destruct (splitDelim x0a rest) as [[line tail] |] eqn:Hline;
      [| split; [reflexivity | apply suffix_nil]].
    apply splitDelim_app in Hline as ->. split; [reflexivity | now apply suffix_app_r].
  - rewrite (readResponse_line fl x3a "int") by auto 6.
    destruct (splitDelim x0a rest) as [[line tail] |] eqn:Hline;
      [| split; [reflexivity | apply suffix_nil]].
    apply splitDelim_app in Hline as ->. split; [reflexivity | now apply suffix_app_r].
  - rewrite readResponse_marker.
    destruct rest as [| m0 [| m1 [| m2 tail]]];
      try (split; [reflexivity | apply suffix_nil]).
    destruct (Byte.eqb m0 xff && Byte.eqb m1 xff && Byte.eqb m2 xff);
      (split; [reflexivity | do 3 apply suffix_cons_r; reflexivity]).
Qed.

(** X3: [readResponse] only moves forward in the stream: what it leaves
    unread is an end of what it was given, the error the connection will
    report is unchanged, and a response returned without error has used at
    least one byte. *)
Theorem readResponse_consumes (reader : Reader) :
  failure (snd (readResponse reader)) = failure reader
  /\ unread (snd (readResponse reader)) `suffix_of` unread reader
  /\ (forall ty data,
        fst (readResponse reader) = Return (ty, data, None) ->
        length (unread (snd (readResponse reader))) < length (unread reader)).
Proof.
  destruct reader as [[| b rest] fl].
  - rewrite readResponse_empty. cbn. repeat split; [reflexivity | discriminate].
  - destruct (readResponse_after_first b rest fl) as [Hfl Hsuffix].
    set (r' := snd (readResponse (mkReader (b :: rest) fl))) in *.
    cbn [unread failure]. repeat split; [assumption | now apply suffix_cons_r |].
    intros _ _ _. apply suffix_length in Hsuffix. cbn [length]. lia.
Qed.

(** ** Responses that are not well formed *)

(** X4: a bulk header that is no response of the protocol.  A length line
    that is no integer gives the error "invalid length" with the trimmed
    line; a length below -1 makes [readResponse] panic in [make].  In both
    cases the length line is consumed and what follows it stays unread. *)
Theorem readResponse_bulk_malformed (rest line tail : bytes) (fl : error) :
  splitDelim x0a rest = Some (line, tail) ->
  let reader := mkReader (x24 :: rest) fl in
  (Atoi (TrimSpace line) = None ->
   readResponse reader =
     (Return ("", [], Some (Errorf_s "invalid length" (TrimSpace line))),
      mkReader tail fl))
  /\ (forall n, Atoi (TrimSpace line) = Some n -> (n < -1)%Z ->
      readResponse reader =
        (Panics "runtime error: makeslice: len out of range", mkReader tail fl)).
Proof.
  intros Hline. cbn zeta. rewrite readResponse_dollar, Hline. split.
  - now intros ->.
  - intros n -> Hn.
    destruct (Z.eqb_spec n (-1)) as [-> | _]; [lia |].
    destruct (Z.ltb_spec n 0) as [_ | Hpos]; [reflexivity | lia].
Qed.

Lemma readResponse_bulk_malformed_witness :
  readResponse (mkReader (bytes_of "$abc" ++ CRLF ++ bytes_of "x") io_EOF) =
    (Return ("", [], Some (Errorf_s "invalid length" (bytes_of "abc"))),
     mkReader (bytes_of "x") io_EOF)
  /\ readResponse (mkReader (bytes_of "$-7" ++ CRLF ++ bytes_of "x") io_EOF) =
       (Panics "runtime error: makeslice: len out of range",
        mkReader (bytes_of "x") io_EOF).
Proof.
  split.
  - exact (proj1 (readResponse_bulk_malformed
                    (bytes_of "abc" ++ CRLF ++ bytes_of "x")
                    (bytes_of "abc" ++ CRLF) (bytes_of "x") io_EOF eq_refl) eq_refl).
  - refine (proj2 (readResponse_bulk_malformed
                     (bytes_of "-7" ++ CRLF ++ bytes_of "x")
                     (bytes_of "-7" ++ CRLF) (bytes_of "x") io_EOF eq_refl)
              (-7)%Z eq_refl _).
    lia.
Defined.

(** X5: a response cut before the newline of its first line is no
    variant: after ['+'], ['-'], [':'] or ['$'] and no newline to come,
    [readResponse] returns the error of the connection and has consumed
    every byte there was. *)
Theorem readResponse_truncated_line (b : byte) (rest : bytes) (fl : error) :
  b ∈ [x2b; x2d; x3a; x24] ->
  splitDelim x0a rest = None ->
  readResponse (mkReader (b :: rest) fl) = (Return ("", [], Some fl), mkReader [] fl).
Proof.
  intros Hb Hline.
  repeat (apply elem_of_cons in Hb as [-> | Hb]).
  - rewrite (readResponse_line fl x2b "ok") by auto. now rewrite Hline.
  - rewrite (readResponse_line fl x2d "error") by auto. now rewrite Hline.
  - rewrite (readResponse_line fl x3a "int") by auto 6. now rewrite Hline.
  - rewrite readResponse_dollar. now rewrite Hline.
  - now apply elem_of_nil in Hb.
Qed.

Lemma readResponse_truncated_line_witness :
  readResponse (mkReader (bytes_of "+OK") io_EOF) =
    (Return ("", [], Some io_EOF), mkReader [] io_EOF).
Proof.
  refine (readResponse_truncated_line x2b (bytes_of "OK") io_EOF _ eq_refl).
  constructor.
Defined.

(** ** Commands on a session *)

Section Session.

Context `{ArrowIPC}.

Variables (tq txf : bool) (nc : NetConn).
Hypothesis writable : writeErr nc = None.

(** The session after the command [cmd sql] was written and the reader
    moved to [rd]. *)
Let sentThen (cmd sql : bytes) (rd : Reader) : Conn.t :=
  Conn.mk tq (Some (sending nc (commandFrame cmd sql))) (Some rd) false txf.

Lemma ExecContext_step (rd : Reader) (q : bytes) :
  Conn.ExecContext (Conn.mk tq (Some nc) (Some rd) false txf) q =
    match readResponse rd with
    | (Panics msg, rd') => (Panics msg, sentThen cmdExecute q rd')
    | (Return (_, _, Some err), rd') =>
      (Return (None, Some (Errorf_w "failed to read response" err)),
       sentThen cmdExecute q rd')
    | (Return (respType, data, None), rd') =>
      Conn.execResponse (sentThen cmdExecute q rd) respType data rd'
    end.
Proof.
  unfold Conn.ExecContext, sendCommand, Write, sentThen, sending. cbn.
  rewrite !writable. cbn.
  destruct (readResponse rd) as [[[[ty data] [err |]] | msg] rd']; reflexivity.
Qed.

Lemma QueryContext_step (rd : Reader) (q : bytes) :
  Conn.QueryContext (Conn.mk tq (Some nc) (Some rd) false txf) q =
    match readResponse rd with
    | (Panics msg, rd') => (Panics msg, sentThen cmdQuery q rd')
    | (Return (_, _, Some err), rd') =>
      (Return (None, Some (Errorf_w "failed to read response" err)),
       sentThen cmdQuery q rd')
    | (Return (respType, data, None), rd') =>
      Conn.queryResponse (sentThen cmdQuery q rd) respType data rd'
    end.
Proof.
  unfold Conn.QueryContext, sendCommand, Write, sentThen, sending. cbn.
  rewrite !writable. cbn.
  destruct (readResponse rd) as [[[[ty data] [err |]] | msg] rd']; reflexivity.
Qed.

(** X6: an error line from the server.  When the response starts with
    ['-'], [ExecContext] and [QueryContext] alike return no result and the
    error "luna error" with the trimmed text of the line; each has written
    its one command frame and read the response line, and no more. *)
Theorem server_error_line (rest line tail : bytes) (fl : error) (q : bytes) :
  splitDelim x0a rest = Some (line, tail) ->
  let c := Conn.mk tq (Some nc) (Some (mkReader (x2d :: rest) fl)) false txf in
  Conn.ExecContext c q =
    (Return (None, Some (Errorf_s "luna error" (TrimSpace line))),
     sentThen cmdExecute q (mkReader tail fl))
  /\ Conn.QueryContext c q =
       (Return (None, Some (Errorf_s "luna error" (TrimSpace line))),
        sentThen cmdQuery q (mkReader tail fl)).
Proof.
  intros Hline. cbn zeta.
  rewrite ExecContext_step, QueryContext_step.
  rewrite (readResponse_line fl x2d "error") by auto. rewrite Hline.
  split; reflexivity.
Qed.

(** One [ExecContext] answered by an OK line. *)
Lemma ExecContext_ok_line (rest line tail : bytes) (fl : error) (q : bytes) :
  splitDelim x0a rest = Some (line, tail) ->
  Conn.ExecContext (Conn.mk tq (Some nc) (Some (mkReader (x2b :: rest) fl)) false txf) q =
    (Return (Some (mkresult 0), None), sentThen cmdExecute q (mkReader tail fl)).
Proof.
  intros Hline. rewrite ExecContext_step.
  rewrite (readResponse_line fl x2b "ok") by auto. now rewrite Hline.
Qed.

End Session.

Lemma server_error_line_witness :
  Conn.ExecContext (H := emptyStreamIPC)
    (session (bytes_of "-no such table" ++ CRLF)) (bytes_of "DROP TABLE ghost") =
    (Return (None, Some (Errorf_s "luna error" (bytes_of "no such table"))),
     Conn.mk false
       (Some (sending freshSocket (commandFrame cmdExecute (bytes_of "DROP TABLE ghost"))))
       (Some (mkReader [] io_EOF)) false false).
Proof.
  exact (proj1 (server_error_line (H := emptyStreamIPC) false false freshSocket eq_refl
                  (bytes_of "no such table" ++ CRLF) (bytes_of "no such table" ++ CRLF)
                  [] io_EOF (bytes_of "DROP TABLE ghost") eq_refl)).
Defined.

Lemma splitDelim_line (l more : bytes) :
  x0a ∉ l -> splitDelim x0a (l ++ x0a :: more) = Some (l ++ [x0a], more).
Proof.
  induction l as [| b l IH]; intros Hl; [reflexivity |].
  apply not_elem_of_cons in Hl as [Hb Hl].
  cbn. destruct (Byte.eqb b x0a) eqn:Heq;
    [apply Byte.byte_dec_bl in Heq; congruence |].
  now rewrite IH.
Qed.

Lemma sending_sending (nc : NetConn) (a b : bytes) :
  sending (sending nc a) b = sending nc (a ++ b).
Proof. unfold sending. cbn. now rewrite app_assoc. Qed.

Lemma sending_nothing (nc : NetConn) : sending nc [] = nc.
Proof. destruct nc. unfold sending. cbn. now rewrite app_nil_r. Qed.

(** X7: commands and responses stay in step.  When the server answers
    each of a list of statements with an OK line, executing them one after
    the other succeeds every time; the socket has received the command
    frames in order and nothing else, and the reader stands right after the
    last response line. *)
Theorem execAll_in_step `{ArrowIPC} (tq txf : bool) (fl : error) (rest : bytes)
    (queries lines : list bytes) (nc : NetConn) :
  writeErr nc = None ->
  length lines = length queries ->
  Forall (fun l => x0a ∉ l) lines ->
  let responses := concat (map (fun l => x2b :: l ++ [x0a]) lines) in
  execAll queries (Conn.mk tq (Some nc) (Some (mkReader (responses ++ rest) fl)) false txf) =
    (replicate (length queries) (Return (Some (mkresult 0), None)),
     Conn.mk tq (Some (sending nc (concat (map (commandFrame cmdExecute) queries))))
       (Some (mkReader rest fl)) false txf).
Proof.
  cbn zeta. revert lines nc.
  induction queries as [| q queries IH]; intros lines nc Hw Hlen Hlines.
  - destruct lines; [| discriminate]. cbn. now rewrite sending_nothing.
  - destruct lines as [| l lines]; [discriminate |].
    inversion_clear Hlines as [| ? ? Hl Hrest]. injection Hlen as Hlen.
    cbn [execAll map concat length replicate].
    rewrite <- !app_assoc. cbn [app]. rewrite <- app_assoc. cbn [app].
    rewrite (ExecContext_ok_line tq txf nc Hw _ (l ++ [x0a]) _ fl q)
      by now apply splitDelim_line.
    rewrite (IH lines (sending nc (commandFrame cmdExecute q))) by assumption.
    now rewrite sending_sending.
Qed.

Lemma execAll_in_step_witness :
  execAll (H := emptyStreamIPC)
    [bytes_of "CREATE TABLE t (id INT)"; bytes_of "DROP TABLE t"]
    (session (bytes_of "+OK" ++ [x0a] ++ bytes_of "+done" ++ [x0a] ++ bytes_of ":1")) =
    ([Return (Some (mkresult 0), None); Return (Some (mkresult 0), None)],
     Conn.mk false
       (Some (sending freshSocket
                (commandFrame cmdExecute (bytes_of "CREATE TABLE t (id INT)")
                   ++ commandFrame cmdExecute (bytes_of "DROP TABLE t"))))
       (Some (mkReader (bytes_of ":1") io_EOF)) false false).
Proof.
  refine (execAll_in_step (H := emptyStreamIPC) false false io_EOF (bytes_of ":1")
            [bytes_of "CREATE TABLE t (id INT)"; bytes_of "DROP TABLE t"]
            [bytes_of "OK"; bytes_of "done"] freshSocket eq_refl eq_refl _).
  repeat constructor; intros Hin; repeat (apply elem_of_cons in Hin as [Heq | Hin];
    [discriminate Heq |]); now apply elem_of_nil in Hin.
Defined.

(** X8: a write that fails.  When the socket refuses the write with the
    error [e], [ExecContext] and [QueryContext] return no result and the
    error "failed to send command" around [e]; they do not read a response
    and leave the session, what was sent included, as it was. *)
Theorem send_failure `{ArrowIPC} (c : Conn.t) (nc : NetConn) (e : error) (q : bytes) :
  Conn.closed c = false -> Conn.conn c = Some nc -> writeErr nc = Some e ->
  Conn.ExecContext c q =
    (Return (None, Some (Errorf_w "failed to send command" e)), c)
  /\ Conn.QueryContext c q =
       (Return (None, Some (Errorf_w "failed to send command" e)), c).
Proof.
  intros Hopen Hconn Hw. destruct c as [tq cn rd cl txf]. cbn in *. subst.
  unfold Conn.ExecContext, Conn.QueryContext, sendCommand, Write. cbn.
  rewrite Hw. split; reflexivity.
Qed.

Lemma send_failure_witness :
  Conn.ExecContext (H := emptyStreamIPC)
    (Conn.mk false (Some (mkNetConn [] (Some (net_Error "broken pipe")) None false))
       (Some (mkReader (bytes_of "+OK") io_EOF)) false false)
    (bytes_of "DROP TABLE t") =
    (Return (None, Some (Errorf_w "failed to send command" (net_Error "broken pipe"))),
     Conn.mk false (Some (mkNetConn [] (Some (net_Error "broken pipe")) None false))
       (Some (mkReader (bytes_of "+OK") io_EOF)) false false).
Proof.
  exact (proj1 (send_failure (H := emptyStreamIPC)
                  (Conn.mk false
                     (Some (mkNetConn [] (Some (net_Error "broken pipe")) None false))
                     (Some (mkReader (bytes_of "+OK") io_EOF)) false false)
                  (mkNetConn [] (Some (net_Error "broken pipe")) None false)
                  (net_Error "broken pipe") (bytes_of "DROP TABLE t")
                  eq_refl eq_refl eq_refl)).
Defined.

(** X9: after [Close] the session does nothing more.  On the session
    [Close] leaves, whether it was open before or not, [ExecContext] and
    [QueryContext] return [driver.ErrBadConn], [Ping] returns it too and
    releases nothing, [Prepare] returns the error "luna: connection closed"
    and a [BeginTx] with no transaction flagged returns [driver.ErrBadConn]
    without setting the flag; none of them writes to the socket or reads
    from it. *)
Theorem closed_session_refuses `{ArrowIPC} (c0 : Conn.t) (q : bytes) :
  let c := snd (Conn.Close c0) in
  Conn.closed c = true
  /\ Conn.ExecContext c q = (Return (None, Some driver_ErrBadConn), c)
  /\ Conn.QueryContext c q = (Return (None, Some driver_ErrBadConn), c)
  /\ Conn.Ping c = (Return (Some driver_ErrBadConn), c, [])
  /\ (forall (h : gmap ptr Conn.t) p, h !! p = Some c ->
       Conn.Prepare h p q = Return (None, Some (Errorf_0 "luna: connection closed"))
       /\ (Conn.tx c = false ->
           Conn.BeginTx h p = (Return (None, Some driver_ErrBadConn), h))).
Proof.
  cbn zeta.
  assert (Conn.closed (snd (Conn.Close c0)) = true) as Hclosed.
  { unfold Conn.Close. destruct (Conn.closed c0) eqn:Hc; [exact Hc |].
    cbn. now destruct (Conn.conn c0). }
  set (c := snd (Conn.Close c0)) in *.
  unfold Conn.ExecContext, Conn.QueryContext, Conn.Ping. rewrite Hclosed.
  do 4 (split; [reflexivity |]).
  intros h p Hp. unfold Conn.Prepare, Conn.BeginTx. rewrite Hp, Hclosed.
  split; [reflexivity |].
  intros ->. unfold Conn.ExecContext. rewrite Hclosed. now rewrite insert_id.
Qed.

Lemma closed_session_refuses_witness :
  Conn.ExecContext (H := emptyStreamIPC) closedSession (bytes_of "SELECT 1") =
    (Return (None, Some driver_ErrBadConn), closedSession)
  /\ Conn.Prepare {[ 0 := closedSession ]} 0 (bytes_of "SELECT 1") =
       Return (None, Some (Errorf_0 "luna: connection closed"))
  /\ Conn.BeginTx (H := emptyStreamIPC) {[ 0 := closedSession ]} 0 =
       (Return (None, Some driver_ErrBadConn), {[ 0 := closedSession ]}).
Proof.
  destruct (closed_session_refuses (H := emptyStreamIPC) (session []) (bytes_of "SELECT 1"))
    as (_ & Hexec & _ & _ & Hheap).
  destruct (Hheap {[ 0 := closedSession ]} 0) as [Hprepare Hbegin]; [reflexivity |].
  split; [exact Hexec | split; [exact Hprepare | exact (Hbegin eq_refl)]].
Defined.

(** ** Queries *)

Section Query.

Context `{ArrowIPC}.

Variables (tq txf : bool) (nc : NetConn).
Hypothesis writable : writeErr nc = None.

(** X10: a query answered by an Arrow stream.  [QueryContext] writes its
    command frame, runs the IPC reader on the stream from its marker on and
    leaves the reader after the bytes that reader consumed; when the IPC
    reader reports no error the result is a fresh, open cursor over exactly
    the decoded batches, and when it reports one the result is that error
    inside "failed to parse Arrow IPC" and no cursor. *)
Theorem QueryContext_stream (rest : bytes) (fl : error) (q : bytes) :
  let rd := mkReader (xff :: xff :: xff :: xff :: rest) fl in
  let run := ipcRead rd in
  Conn.QueryContext (Conn.mk tq (Some nc) (Some rd) false txf) q =
    (match newReaderErr run, readErr run with
     | Some e, _ =>
       Return (None, Some (Errorf_w "failed to parse Arrow IPC"
                             (Errorf_w "failed to create IPC reader" e)))
     | None, Some e =>
       Return (None, Some (Errorf_w "failed to parse Arrow IPC"
                             (Errorf_w "error reading IPC records" e)))
     | None, None => Return (Some (Rows.mk (decoded run) 0 0
                                     (Rows.columns (Rows.newRowsFromArrow (decoded run)))
                                     false), None)
     end,
     Conn.mk tq (Some (sending nc (commandFrame cmdQuery q)))
       (Some (mkReader (drop (consumed run - 4) rest) fl)) false txf).
Proof.
  cbn zeta. rewrite QueryContext_step by assumption. rewrite readResponse_marker.
  cbn. unfold Conn.queryResponse, parseArrowIPCFromReader. cbn.
  change (combinedReader (mkReader rest fl))
    with (mkReader (xff :: xff :: xff :: xff :: rest) fl).
  generalize (ipcRead (mkReader (xff :: xff :: xff :: xff :: rest) fl)). intros run.
  now destruct (newReaderErr run), (readErr run).
Qed.

(** X11: a query answered without data.  When the response is neither an
    error line nor an Arrow stream and carries no payload, as the null bulk
    does, [QueryContext] returns a cursor with no batch: it has no column
    and its [Next] returns [io.EOF] at once, leaving [dest] alone. *)
Theorem QueryContext_no_data (rd rd' : Reader) (ty : string) (q : bytes) :
  readResponse rd = (Return (ty, [], None), rd') ->
  ty <> "error" -> ty <> "arrow-stream" ->
  Conn.QueryContext (Conn.mk tq (Some nc) (Some rd) false txf) q =
    (Return (Some (Rows.newRowsFromArrow []), None),
     Conn.mk tq (Some (sending nc (commandFrame cmdQuery q))) (Some rd') false txf)
  /\ Rows.Columns (Rows.newRowsFromArrow []) = []
  /\ forall dest,
       Rows.Next (Rows.newRowsFromArrow []) dest =
         (Return (Some io_EOF), Rows.newRowsFromArrow [], dest).
Proof.
  intros Hresp Herror Hstream. repeat split.
  rewrite QueryContext_step by assumption. rewrite Hresp.
  unfold Conn.queryResponse.
  apply String.eqb_neq in Herror, Hstream. now rewrite Herror, Hstream.
Qed.

(** X12: [Ping] answered by an Arrow stream.  [Ping] sends the query
    "SELECT 1" in the frame "$10 CRLF q:SELECT 1 CRLF"; when the IPC reader
    reports no error it returns nil, having released every decoded record
    once by closing the rows, and otherwise it returns the error of the
    query and releases nothing. *)
Theorem Ping_stream (rest : bytes) (fl : error) :
  let rd := mkReader (xff :: xff :: xff :: xff :: rest) fl in
  let run := ipcRead rd in
  let frame := bytes_of "$10" ++ CRLF ++ bytes_of "q:SELECT 1" ++ CRLF in
  Conn.Ping (Conn.mk tq (Some nc) (Some rd) false txf) =
    (match newReaderErr run, readErr run with
     | Some e, _ =>
       Return (Some (Errorf_w "failed to parse Arrow IPC"
                       (Errorf_w "failed to create IPC reader" e)))
     | None, Some e =>
       Return (Some (Errorf_w "failed to parse Arrow IPC"
                       (Errorf_w "error reading IPC records" e)))
     | None, None => Return None
     end,
     Conn.mk tq (Some (sending nc frame))
       (Some (mkReader (drop (consumed run - 4) rest) fl)) false txf,
     match newReaderErr run, readErr run with
     | None, None => decoded run
     | _, _ => []
     end).
Proof.
  cbn zeta. unfold Conn.Ping. cbn [Conn.closed].
  rewrite QueryContext_step by assumption. rewrite readResponse_marker.
  cbn. unfold Conn.queryResponse, parseArrowIPCFromReader. cbn.
  change (combinedReader (mkReader rest fl))
    with (mkReader (xff :: xff :: xff :: xff :: rest) fl).
  generalize (ipcRead (mkReader (xff :: xff :: xff :: xff :: rest) fl)). intros run.
  now destruct (newReaderErr run), (readErr run).
Qed.

End Query.

Lemma QueryContext_stream_witness :
  Conn.QueryContext (H := sampleIPC)
    (session [xff; xff; xff; xff; x01; x02]) (bytes_of "SELECT id, name FROM t") =
    (Return (Some (Rows.mk sampleBatches 0 0 [bytes_of "id"; bytes_of "name"] false), None),
     Conn.mk false
       (Some (sending freshSocket (commandFrame cmdQuery (bytes_of "SELECT id, name FROM t"))))
       (Some (mkReader [] io_EOF)) false false).
Proof.
  exact (QueryContext_stream (H := sampleIPC) false false freshSocket eq_refl
           [x01; x02] io_EOF (bytes_of "SELECT id, name FROM t")).
Defined.

Lemma QueryContext_no_data_witness :
  Conn.QueryContext (H := sampleIPC)
    (session (bytes_of "$-1" ++ CRLF)) (bytes_of "SELECT 1") =
    (Return (Some (Rows.newRowsFromArrow []), None),
     Conn.mk false (Some (sending freshSocket (commandFrame cmdQuery (bytes_of "SELECT 1"))))
       (Some (mkReader [] io_EOF)) false false).
Proof.
  refine (proj1 (QueryContext_no_data (H := sampleIPC) false false freshSocket eq_refl
                   (mkReader (bytes_of "$-1" ++ CRLF) io_EOF) (mkReader [] io_EOF)
                   "null" (bytes_of "SELECT 1") eq_refl _ _)); discriminate.
Defined.

Lemma Ping_stream_witness :
  Conn.Ping (H := sampleIPC) (session [xff; xff; xff; xff; x01; x02]) =
    (Return None,
     Conn.mk false
       (Some (sending freshSocket (bytes_of "$10" ++ CRLF ++ bytes_of "q:SELECT 1" ++ CRLF)))
       (Some (mkReader [] io_EOF)) false false,
     sampleBatches).
Proof.
  exact (Ping_stream (H := sampleIPC) false false freshSocket eq_refl [x01; x02] io_EOF).
Defined.

(** ** The flags of a session *)

Lemma ExecContext_keeps_flags `{ArrowIPC} (c : Conn.t) (q : bytes) :
  Conn.closed (snd (Conn.ExecContext c q)) = Conn.closed c
  /\ Conn.tx (snd (Conn.ExecContext c q)) = Conn.tx c.
Proof.
  unfold Conn.ExecContext, Conn.execResponse.
  split; repeat case_match; cbn; congruence.
Qed.

(** X13: a command never closes or marks the session.  Whatever
    [ExecContext] or [QueryContext] return, error and panic included, the
    [closed] flag and the transaction flag of the session are what they
    were: no outcome of a command puts the session out of use. *)
Theorem commands_keep_flags `{ArrowIPC} (c : Conn.t) (q : bytes) :
  (Conn.closed (snd (Conn.ExecContext c q)) = Conn.closed c
   /\ Conn.tx (snd (Conn.ExecContext c q)) = Conn.tx c)
  /\ (Conn.closed (snd (Conn.QueryContext c q)) = Conn.closed c
      /\ Conn.tx (snd (Conn.QueryContext c q)) = Conn.tx c).
Proof.
  unfold Conn.ExecContext, Conn.execResponse, Conn.QueryContext, Conn.queryResponse.
  repeat split; repeat case_match; cbn; congruence.
Qed.

(** ** The life of a transaction *)

Section Transactions.

Context `{ArrowIPC}.

Variables (h : gmap ptr Conn.t) (p : ptr) (cn : Conn.t).
Hypothesis at_p : h !! p = Some cn.

(** X14: [BeginTx] sets the flag exactly when it succeeds.  On a session
    with no transaction flagged, a [BeginTx] that returns a transaction has
    set the flag and returns a handle to this very session, so that a second
    [BeginTx] is refused with "there is already an open transaction"; a
    [BeginTx] that returns an error or panics leaves the flag clear.  No
    other session of the store is touched. *)
Theorem BeginTx_sets_flag :
  Conn.tx cn = false ->
  (forall q, q <> p -> snd (Conn.BeginTx h p) !! q = h !! q)
  /\ exists cn', snd (Conn.BeginTx h p) !! p = Some cn'
     /\ Conn.closed cn' = Conn.closed cn
     /\ match fst (Conn.BeginTx h p) with
        | Return (Some t, None) =>
          c t = Some p /\ Conn.tx cn' = true
          /\ Conn.BeginTx (snd (Conn.BeginTx h p)) p =
               (Return (None, Some (Errorf_0 "luna: there is already an open transaction")),
                snd (Conn.BeginTx h p))
        | _ => Conn.tx cn' = false
        end.
Proof.
  intros Hflag.
  destruct (ExecContext_keeps_flags cn (bytes_of "BEGIN TRANSACTION")) as [Hclosed Htx].
  assert (Conn.BeginTx h p =
            match Conn.ExecContext cn (bytes_of "BEGIN TRANSACTION") with
            | (Panics msg, cn') => (Panics msg, <[p := cn']> h)
            | (Return (_, Some err), cn') => (Return (None, Some err), <[p := cn']> h)
            | (Return (_, None), cn') =>
              (Return (Some (mkTx (Some p)), None), <[p := Conn.setTx cn' true]> h)
            end) as ->
    by (unfold Conn.BeginTx; now rewrite at_p, Hflag).
  destruct (Conn.ExecContext cn (bytes_of "BEGIN TRANSACTION")) as [[[res [err |]] | msg] cn'];
    cbn [fst snd] in *.
  - split; [intros q Hq; now rewrite lookup_insert_ne |].
    exists cn'. rewrite lookup_insert_eq. repeat split; congruence.
  - split; [intros q Hq; now rewrite lookup_insert_ne |].
    exists (Conn.setTx cn' true). rewrite lookup_insert_eq.
    repeat split; try assumption.
    unfold Conn.BeginTx. now rewrite lookup_insert_eq.
  - split; [intros q Hq; now rewrite lookup_insert_ne |].
    exists cn'. rewrite lookup_insert_eq. repeat split; congruence.
Qed.

(** X15: [Commit] and [Rollback] end the transaction whatever the server
    says.  On an open transaction both clear the flag of the session before
    they send their command, so the flag is clear afterwards even when the
    command fails or panics; when they return, with an error or without,
    the handle has lost its connection, so that using it again panics.  No
    other session of the store is touched. *)
Theorem Commit_Rollback_clear_flag (t : Tx) :
  c t = Some p -> Conn.tx cn = true ->
  ((forall q, q <> p -> snd (tx.Commit h t) !! q = h !! q)
   /\ (exists cn', snd (tx.Commit h t) !! p = Some cn' /\ Conn.tx cn' = false)
   /\ match fst (fst (tx.Commit h t)) with
      | Return _ =>
        c (snd (fst (tx.Commit h t))) = None
        /\ fst (fst (tx.Commit (snd (tx.Commit h t)) (snd (fst (tx.Commit h t))))) =
             Panics tx.extraCommit
      | Panics _ => snd (fst (tx.Commit h t)) = t
      end)
  /\ ((forall q, q <> p -> snd (tx.Rollback h t) !! q = h !! q)
      /\ (exists cn', snd (tx.Rollback h t) !! p = Some cn' /\ Conn.tx cn' = false)
      /\ match fst (fst (tx.Rollback h t)) with
         | Return _ =>
           c (snd (fst (tx.Rollback h t))) = None
           /\ fst (fst (tx.Rollback (snd (tx.Rollback h t)) (snd (fst (tx.Rollback h t))))) =
                Panics tx.extraRollback
         | Panics _ => snd (fst (tx.Rollback h t)) = t
         end).
Proof.
  intros Hc Hflag. split.
  - destruct (ExecContext_keeps_flags (Conn.setTx cn false) (bytes_of "COMMIT TRANSACTION"))
      as [_ Htx].
    assert (tx.Commit h t =
              match Conn.ExecContext (Conn.setTx cn false)
                      (bytes_of "COMMIT TRANSACTION") with
              | (Panics msg, cn') => (Panics msg, t, <[p := cn']> h)
              | (Return (_, err), cn') => (Return err, mkTx None, <[p := cn']> h)
              end) as ->
      by (unfold tx.Commit; now rewrite Hc, at_p, Hflag).
    destruct (Conn.ExecContext (Conn.setTx cn false) (bytes_of "COMMIT TRANSACTION"))
      as [[[res err] | msg] cn']; cbn [fst snd] in *;
      (split; [intros q Hq; now rewrite lookup_insert_ne |]);
      (split; [exists cn'; now rewrite lookup_insert_eq |]); now try split.
  - destruct (ExecContext_keeps_flags (Conn.setTx cn false) (bytes_of "ROLLBACK"))
      as [_ Htx].
    assert (tx.Rollback h t =
              match Conn.ExecContext (Conn.setTx cn false) (bytes_of "ROLLBACK") with
              | (Panics msg, cn') => (Panics msg, t, <[p := cn']> h)
              | (Return (_, err), cn') => (Return err, mkTx None, <[p := cn']> h)
              end) as ->
      by (unfold tx.Rollback; now rewrite Hc, at_p, Hflag).
    destruct (Conn.ExecContext (Conn.setTx cn false) (bytes_of "ROLLBACK"))
      as [[[res err] | msg] cn']; cbn [fst snd] in *;
      (split; [intros q Hq; now rewrite lookup_insert_ne |]);
      (split; [exists cn'; now rewrite lookup_insert_eq |]); now try split.
Qed.

End Transactions.

Lemma BeginTx_sets_flag_witness :
  exists cn',
    snd (Conn.BeginTx (H := emptyStreamIPC) okSession 0) !! 0 = Some cn'
    /\ Conn.closed cn' = false
    /\ c (mkTx (Some 0)) = Some 0 /\ Conn.tx cn' = true
    /\ Conn.BeginTx (H := emptyStreamIPC)
         (snd (Conn.BeginTx (H := emptyStreamIPC) okSession 0)) 0 =
         (Return (None, Some (Errorf_0 "luna: there is already an open transaction")),
          snd (Conn.BeginTx (H := emptyStreamIPC) okSession 0)).
Proof.
  exact (proj2 (BeginTx_sets_flag (H := emptyStreamIPC) okSession 0 (session okTwice)
                  eq_refl eq_refl)).
Defined.

Lemma Commit_Rollback_clear_flag_witness :
  (exists cn',
      snd (tx.Commit (H := emptyStreamIPC) okSessionInTx staleTx) !! 0 = Some cn'
      /\ Conn.tx cn' = false)
  /\ (exists cn',
        snd (tx.Rollback (H := emptyStreamIPC) okSessionInTx staleTx) !! 0 = Some cn'
        /\ Conn.tx cn' = false).
Proof.
  destruct (Commit_Rollback_clear_flag (H := emptyStreamIPC) okSessionInTx 0
              (Conn.setTx (session okTwice) true) eq_refl staleTx eq_refl eq_refl)
    as [(_ & Hcommit & _) (_ & Hrollback & _)].
  split; [exact Hcommit | exact Hrollback].
Defined.

(** ** Statements *)

(** X16: a statement can be closed once.  [Close] marks the statement
    closed and changes nothing else; whatever the statement was, a [Close]
    that follows a [Close] returns the error "statement already closed",
    and on the closed statement [ExecContext] and [QueryContext] return the
    error "statement is closed" without touching any session, while
    [NumInput] panics. *)
Theorem Stmt_closed `{ArrowIPC} (s : Stmt) (h : gmap ptr Conn.t) (nargs : list NamedValue) :
  let s1 := snd (Stmt.Close s) in
  s1 = mkStmt (conn s) (query s) true
  /\ (closed s = false -> fst (Stmt.Close s) = None)
  /\ Stmt.Close s1 = (Some (Errorf_0 "statement already closed"), s1)
  /\ Stmt.ExecContext h s1 nargs =
       (Return (None, Some (Errorf_0 "statement is closed")), h)
  /\ Stmt.QueryContext h s1 nargs =
       (Return (None, Some (Errorf_0 "statement is closed")), h)
  /\ Stmt.NumInput s1 =
       Panics "database/sql/driver: misuse of luna driver: NumInput after Close".
Proof.
  destruct s as [p q [|]]; cbn; repeat split; discriminate.
Qed.

Lemma Stmt_closed_witness :
  fst (Stmt.Close sampleStmt) = None
  /\ Stmt.Close (snd (Stmt.Close sampleStmt)) =
       (Some (Errorf_0 "statement already closed"), snd (Stmt.Close sampleStmt)).
Proof.
  destruct (Stmt_closed (H := emptyStreamIPC) sampleStmt okSession [])
    as (_ & Hfirst & Hsecond & _).
  split; [exact (Hfirst eq_refl) | exact Hsecond].
Defined.

(** X17: a prepared statement runs its own text, and only that.  [Prepare]
    on an open session returns an open statement for the SQL text, which
    does not know how many arguments it takes ([NumInput] is -1); [Exec] and
    [Query] on it are [ExecContext] and [QueryContext] of the session with
    that text, whatever arguments they are given: the arguments reach
    neither the command nor the result. *)
Theorem prepared_statement `{ArrowIPC} (h : gmap ptr Conn.t) (p : ptr) (cn : Conn.t)
    (q : bytes) :
  h !! p = Some cn -> Conn.closed cn = false ->
  let s := mkStmt p q false in
  Conn.Prepare h p q = Return (Some s, None)
  /\ Stmt.NumInput s = Return (-1)%Z
  /\ (forall args,
        Stmt.Exec h s args =
          (fst (Conn.ExecContext cn q), <[p := snd (Conn.ExecContext cn q)]> h))
  /\ (forall args,
        Stmt.Query h s args =
          (fst (Conn.QueryContext cn q), <[p := snd (Conn.QueryContext cn q)]> h)).
Proof.
  intros Hp Hopen. cbn zeta. unfold Conn.Prepare, Stmt.Exec, Stmt.Query,
    Stmt.ExecContext, Stmt.QueryContext. cbn. rewrite Hp, Hopen.
  repeat split; intros args.
  - now destruct (Conn.ExecContext cn q).
  - now destruct (Conn.QueryContext cn q).
Qed.

Lemma prepared_statement_witness :
  Conn.Prepare okSession 0 (bytes_of "INSERT INTO t VALUES (?)") =
    Return (Some sampleStmt, None)
  /\ Stmt.Exec (H := emptyStreamIPC) okSession sampleStmt [VInt64 7] =
       Stmt.Exec (H := emptyStreamIPC) okSession sampleStmt [VString (bytes_of "x"); VNil].
Proof.
  destruct (prepared_statement (H := emptyStreamIPC) okSession 0 (session okTwice)
              (bytes_of "INSERT INTO t VALUES (?)") eq_refl eq_refl)
    as (Hprepare & _ & Hexec & _).
  split; [exact Hprepare |].
  exact (eq_trans (Hexec [VInt64 7]) (eq_sym (Hexec [VString (bytes_of "x"); VNil]))).
Defined.

Lemma namedFrom_lookup (values : list Value) (n i : nat) (v : Value) :
  values !! i = Some v ->
  namedFrom n values !! i = Some (mkNamedValue "" (Z.of_nat (n + i) + 1) v).
Proof.
  revert n i. induction values as [| param values IH]; intros n i Hi; [discriminate |].
  destruct i as [| i].
  - injection Hi as ->. now rewrite Nat.add_0_r.
  - replace (n + S i) with (S n + i) by lia. exact (IH (S n) i Hi).
Qed.

(** X18: [argsToNamedArgs] numbers the arguments from 1.  It returns as
    many named values as it was given values; the one at index [i] carries
    the value at index [i], the ordinal [i + 1] and no name. *)
Theorem argsToNamedArgs_ordinals (values : list Value) :
  length (argsToNamedArgs values) = length values
  /\ forall i v, values !! i = Some v ->
       argsToNamedArgs values !! i = Some (mkNamedValue "" (Z.of_nat i + 1) v).
Proof.
  split.
  - unfold argsToNamedArgs. generalize 0.
    induction values as [| v values IH]; intros n; cbn; [reflexivity | now rewrite IH].
  - intros i v Hi. exact (namedFrom_lookup values 0 i v Hi).
Qed.

Lemma argsToNamedArgs_ordinals_witness :
  argsToNamedArgs [VInt64 1; VString (bytes_of "test"); VFloat64 3] !! 2 =
    Some (mkNamedValue "" 3 (VFloat64 3)).
Proof.
  exact (proj2 (argsToNamedArgs_ordinals [VInt64 1; VString (bytes_of "test"); VFloat64 3])
           2 (VFloat64 3) eq_refl).
Defined.

(** ** More on the cursor *)

Lemma fillRow_shape (cols : list Array) (i row : nat) (dest : list Value) :
  length (snd (Rows.fillRow cols i row dest)) = length dest
  /\ take i (snd (Rows.fillRow cols i row dest)) = take i dest.
Proof.
  revert i dest. induction cols as [| col cols IH]; intros i dest; cbn [Rows.fillRow];
    [now split |].
  destruct (getValueFromColumn col row) as [val [err |]]; [now split |].
  destruct (Nat.ltb_spec i (length dest)) as [Hi | Hi]; [| now split].
  destruct (IH (S i) (<[i := val]> dest)) as [Hlen Htake].
  rewrite length_insert in Hlen. split; [assumption |].
  apply (f_equal (take i)) in Htake.
  rewrite !take_take, Nat.min_l, take_insert_ge in Htake by lia. exact Htake.
Qed.

Lemma fillRow_error_again (cols : list Array) (i row : nat) (dest dest' : list Value)
    (e : error) :
  Rows.fillRow cols i row dest = (Rows.FillError e, dest') ->
  Rows.fillRow cols i row dest' = (Rows.FillError e, dest').
Proof.
  revert i dest. induction cols as [| col cols IH]; intros i dest; cbn [Rows.fillRow];
    [discriminate |].
  destruct (getValueFromColumn col row) as [val [err |]]; [now intros [= <- <-] |].
  destruct (Nat.ltb_spec i (length dest)) as [Hi | Hi]; [| discriminate].
  intros Hfill.
  destruct (fillRow_shape cols (S i) row (<[i := val]> dest)) as [Hlen Htake].
  rewrite Hfill, length_insert in *. cbn [snd] in *.
  destruct (Nat.ltb_spec i (length dest')) as [_ | Hi']; [| lia].
  assert (dest' !! i = Some val) as Hval.
  { rewrite <- (lookup_take_lt dest' (S i) i), Htake, lookup_take_lt by lia.
    now apply list_lookup_insert_eq. }
  rewrite (list_insert_id _ _ _ Hval). exact (IH _ _ Hfill).
Qed.

Lemma nextLoop_error_again (rest : list ArrowRecord) (r r' : Rows.t)
    (dest dest' : list Value) (e : error) :
  drop (Rows.recordIdx r) (Rows.records r) = rest ->
  Rows.nextLoop rest r dest = (Return (Some e), r', dest') ->
  Rows.nextLoop (drop (Rows.recordIdx r') (Rows.records r')) r' dest' =
    (Return (Some e), r', dest').
Proof.
  revert r. induction rest as [| rec rest IH]; intros r Hrest; cbn [Rows.nextLoop].
  - intros [= <- <- <-]. now rewrite Hrest.
  - destruct (Rows.rowIdx r <? NumRows rec)%Z eqn:Hrow.
    + destruct (Rows.fillRow (ColumnArrays rec) 0 (Z.to_nat (Rows.rowIdx r)) dest)
        as [[| err |] d] eqn:Hfill; try discriminate.
      intros [= <- <- <-]. rewrite Hrest. cbn [Rows.nextLoop]. rewrite Hrow.
      now rewrite (fillRow_error_again _ _ _ _ _ _ Hfill).
    + apply IH. cbn.
      change (S (Rows.recordIdx r)) with (1 + Rows.recordIdx r).
      now rewrite Nat.add_comm, <- drop_drop, Hrest.
Qed.

(** X19: an error of [Next] is final.  Once [Next] has returned an error,
    the end of the data or the decode error of a cell, every later call
    returns the same error, leaves the cursor where it is and [dest] as it
    is: the cursor never gets past a row it cannot decode. *)
Theorem Next_error_is_final (r r' : Rows.t) (dest dest' : list Value) (e : error)
    (n : nat) :
  Rows.Next r dest = (Return (Some e), r', dest') ->
  nextCalls n r' dest' = (replicate n (Return (Some e), dest'), r').
Proof.
  intros Hnext.
  assert (Rows.Next r' dest' = (Return (Some e), r', dest')) as Hagain.
  { pose proof (Next_keeps r dest) as Hkeep. rewrite Hnext in Hkeep.
    destruct Hkeep as [_ Hclosed].
    unfold Rows.Next in *. rewrite Hclosed.
    destruct (Rows.closed r); [now injection Hnext as <- <- <- |].
    exact (nextLoop_error_again _ r r' dest dest' e eq_refl Hnext). }
  induction n as [| n IH]; [reflexivity |].
  cbn [nextCalls replicate]. now rewrite Hagain, IH.
Qed.

Lemma Next_error_is_final_witness :
  nextCalls 3 (Rows.newRowsFromArrow float16Batch) [VNil] =
    (replicate 3 (Return (Some (Errorf_T "unsupported Arrow type" "*array.Float16")),
                  [VNil]),
     Rows.newRowsFromArrow float16Batch).
Proof.
  exact (Next_error_is_final (Rows.newRowsFromArrow float16Batch)
           (Rows.newRowsFromArrow float16Batch) [VNil] [VNil]
           (Errorf_T "unsupported Arrow type" "*array.Float16") 3 eq_refl).
Defined.

(** X20: a closed cursor yields nothing.  After [Close], whatever rows
    were still pending, every [Next] returns [io.EOF] and leaves [dest]
    untouched. *)
Theorem Next_after_Close (r : Rows.t) (dest : list Value) (n : nat) :
  let done := snd (fst (Rows.Close r)) in
  Rows.closed done = true
  /\ nextCalls n done dest = (replicate n (Return (Some io_EOF), dest), done).
Proof.
  cbn zeta.
  assert (Rows.closed (snd (fst (Rows.Close r))) = true) as Hclosed
    by (unfold Rows.Close; now destruct (Rows.closed r) eqn:Hc).
  split; [assumption |].
  induction n as [| n IH]; [reflexivity |].
  cbn [nextCalls replicate]. unfold Rows.Next at 1. now rewrite Hclosed, IH.
Qed.

(** X21: [Next] writes into [dest] and nowhere else.  Whatever it returns,
    [Next] keeps the batches of the cursor and its closed flag, never moves
    the cursor to an earlier batch, and returns [dest] with the length it
    had. *)
Theorem Next_keeps_shape (r : Rows.t) (dest : list Value) :
  let r' := snd (fst (Rows.Next r dest)) in
  let dest' := snd (Rows.Next r dest) in
  Rows.records r' = Rows.records r
  /\ Rows.closed r' = Rows.closed r
  /\ Rows.columns r' = Rows.columns r
  /\ Rows.recordIdx r <= Rows.recordIdx r'
  /\ length dest' = length dest.
Proof.
  cbn zeta. unfold Rows.Next.
  destruct (Rows.closed r) eqn:Hc; [cbn; repeat split; (assumption || lia) |].
  rewrite <- Hc. clear Hc.
  generalize (drop (Rows.recordIdx r) (Rows.records r)). intros rest.
  revert r. induction rest as [| rec rest IH]; intros r; cbn [Rows.nextLoop];
    [cbn; repeat split; lia |].
  destruct (Rows.rowIdx r <? NumRows rec)%Z.
  - pose proof (fillRow_shape (ColumnArrays rec) 0 (Z.to_nat (Rows.rowIdx r)) dest)
      as [Hlen _].
    destruct (Rows.fillRow _ _ _ _) as [[| err |] d]; cbn in *; repeat split; lia.
  - destruct (IH (Rows.mk (Rows.records r) (S (Rows.recordIdx r)) 0 (Rows.columns r)
                    (Rows.closed r))) as (Hrecs & Hclosed & Hcols & Hidx & Hlen).
    cbn in *. repeat split; try assumption. lia.
Qed.

(** ** One command, one frame *)

Lemma readResponse_suffix (reader : Reader) :
  failure (snd (readResponse reader)) = failure reader
  /\ unread (snd (readResponse reader)) `suffix_of` unread reader.
Proof.
  destruct reader as [[| b rest] fl]; [now rewrite readResponse_empty |].
  destruct (readResponse_after_first b rest fl) as [Hfl Hsuffix].
  split; [assumption | now apply suffix_cons_r].
Qed.

Lemma parseArrowIPCFromReader_suffix `{ArrowIPC} (rd : Reader) :
  failure (snd (parseArrowIPCFromReader rd)) = failure rd
  /\ unread (snd (parseArrowIPCFromReader rd)) `suffix_of` unread rd.
Proof.
  unfold parseArrowIPCFromReader.
  destruct (newReaderErr _); [| destruct (readErr _)]; cbn;
    (split; [reflexivity | apply suffix_drop]).
Qed.

(** X22: one command, at most one frame, and the reader only moves
    forward.  Whatever [ExecContext] or [QueryContext] return, they have
    written to the socket either nothing or exactly their one command frame
    after what was sent before, and the bytes left unread afterwards are an
    end of the bytes unread before: a command never writes twice and never
    reads a byte again. *)
Theorem command_io_discipline `{ArrowIPC} (c : Conn.t) (q : bytes) :
  oneFrame (commandFrame cmdExecute q) c (snd (Conn.ExecContext c q))
  /\ oneFrame (commandFrame cmdQuery q) c (snd (Conn.QueryContext c q)).
Proof.
  assert (forall rd : Reader, failure rd = failure rd /\ unread rd `suffix_of` unread rd)
    as Hrefl by (intros rd; now split).
  assert (forall rd rd1 rd2 : Reader,
             failure rd1 = failure rd /\ unread rd1 `suffix_of` unread rd ->
             failure rd2 = failure rd1 /\ unread rd2 `suffix_of` unread rd1 ->
             failure rd2 = failure rd /\ unread rd2 `suffix_of` unread rd) as Htrans.
  { intros rd rd1 rd2 [Hf1 Hs1] [Hf2 Hs2].
    split; [congruence | now transitivity (unread rd1)]. }
  destruct c as [tq [nc |] rd cl txf]; unfold oneFrame, Conn.ExecContext, Conn.QueryContext;
    cbn [Conn.closed Conn.conn Conn.reader].
  2: { destruct cl; cbn; destruct rd; (split; (split; [now left | auto])). }
  destruct cl; [cbn; destruct rd; (split; (split; [now left | auto])) |].
  unfold sendCommand, Write.
  destruct (writeErr nc) as [e |] eqn:Hw; cbn;
    [destruct rd; (split; (split; [now left | auto])) |].
  assert (forall frame,
             Some (mkNetConn (sent nc ++ frame) None (closeErr nc) (sockClosed nc))
             = Some nc
             \/ exists nc0, Some nc = Some nc0
                /\ Some (mkNetConn (sent nc ++ frame) None (closeErr nc) (sockClosed nc))
                   = Some (sending nc0 frame)) as Hsent
    by (intros frame; right; exists nc; unfold sending; now rewrite Hw).
  destruct rd as [rd |]; cbn; [| split; (split; [apply Hsent | exact I])].
  pose proof (readResponse_suffix rd) as Hread.
  destruct (readResponse rd) as [[[[ty data] [err |]] | msg] rd1]; cbn [snd] in Hread; cbn;
    try (split; (split; [apply Hsent | assumption]); fail).
  unfold Conn.execResponse, Conn.queryResponse.
  pose proof (parseArrowIPCFromReader_suffix rd1) as Hparse.
  destruct (String.eqb ty "error"); cbn; [split; (split; [apply Hsent | assumption]) |].
  destruct (String.eqb ty "arrow-stream"); cbn.
  - destruct (parseArrowIPCFromReader rd1) as [[recs [err |]] rd2]; cbn in *;
      (split; (split; [apply Hsent | eauto])).
  - destruct (parseArrowIPC data) as [recs [err |]]; cbn;
      (split; (split; [apply Hsent | assumption])).
Qed.

Lemma command_io_discipline_example :
  oneFrame (commandFrame cmdQuery (bytes_of "SELECT 1"))
    (session (bytes_of "+OK" ++ CRLF))
    (snd (Conn.QueryContext (H := emptyStreamIPC) (session (bytes_of "+OK" ++ CRLF))
            (bytes_of "SELECT 1"))).
Proof.
  split; [right; exists freshSocket; now split |].
  split; [reflexivity | apply suffix_nil].
Qed.

Lemma bytesReader_reads_slice_witness :
  concat (map fst (fst (readMany [2; 0; 5] (bytesReader.mk (bytes_of "abcde") 0)))) =
    bytes_of "abcde"
  /\ Some io_EOF =
       (if Nat.leb (length (bytes_of "abcde")) (sum_list (take 3 [2; 0; 5; 1]))
        then Some io_EOF else None).
Proof.
  split.
  - exact (proj1 (bytesReader_reads_slice (bytes_of "abcde") [2; 0; 5])).
  - exact (proj2 (proj2 (bytesReader_reads_slice (bytes_of "abcde") [2; 0; 5; 1]))
             3 [] (Some io_EOF) eq_refl).
Defined.

Lemma readResponse_consumes_witness :
  length (unread (snd (readResponse (mkReader (bytes_of ":42" ++ CRLF ++ bytes_of "+OK")
                                       io_EOF)))) <
  length (bytes_of ":42" ++ CRLF ++ bytes_of "+OK").
Proof.
  exact (proj2 (proj2 (readResponse_consumes
                         (mkReader (bytes_of ":42" ++ CRLF ++ bytes_of "+OK") io_EOF)))
           "int" (bytes_of "42") eq_refl).
Defined.

(** ** A query and its rows *)

(** X23: from the query to the last row.  When the answer to a query is
    an Arrow stream the IPC reader decodes without error, into batches
    whose cells are all extracted without error, [QueryContext] returns a
    cursor whose columns are the field names of the first batch and on
    which [Next], with a [dest] that has a slot for every column, succeeds
    once for every row of the stream and returns [io.EOF] ever after. *)
Theorem query_then_rows `{ArrowIPC} (tq txf : bool) (nc : NetConn) (rest : bytes)
    (fl : error) (q : bytes) (dest : list Value) (n : nat) :
  writeErr nc = None ->
  let rd := mkReader (xff :: xff :: xff :: xff :: rest) fl in
  newReaderErr (ipcRead rd) = None ->
  readErr (ipcRead rd) = None ->
  Forall (fun rec => decodable rec = true /\ NumCols rec <= length dest)
         (decoded (ipcRead rd)) ->
  exists rows c',
    Conn.QueryContext (Conn.mk tq (Some nc) (Some rd) false txf) q =
      (Return (Some rows, None), c')
    /\ Rows.Columns rows =
         match decoded (ipcRead rd) with
         | rec :: _ => default [] (Schema rec)
         | [] => []
         end
    /\ map fst (fst (nextCalls n rows dest)) =
         replicate (min n (totalRows (decoded (ipcRead rd)))) (Return None)
           ++ replicate (n - totalRows (decoded (ipcRead rd))) (Return (Some io_EOF)).
Proof.
  intros Hw rd Hnew Herr Hfits. subst rd.
  rewrite QueryContext_step by assumption. rewrite readResponse_marker.
  cbn. unfold Conn.queryResponse, parseArrowIPCFromReader. cbn.
  change (combinedReader (mkReader rest fl))
    with (mkReader (xff :: xff :: xff :: xff :: rest) fl).
  rewrite Hnew, Herr.
  eexists _, _. split; [reflexivity |]. split.
  - unfold Rows.Columns. cbn.
    destruct (decoded _) as [| rec recs]; [reflexivity | now destruct (Schema rec)].
  - rewrite <- allRows_length, <- pending_fresh.
    apply (nextCalls_pending dest); cbn; try reflexivity; assumption.
Qed.

Lemma query_then_rows_witness :
  exists rows c',
    Conn.QueryContext (H := sampleIPC) (session [xff; xff; xff; xff; x01])
      (bytes_of "SELECT id, name FROM t") = (Return (Some rows, None), c')
    /\ Rows.Columns rows = [bytes_of "id"; bytes_of "name"]
    /\ map fst (fst (nextCalls 4 rows [VNil; VNil])) =
         [Return None; Return None; Return None; Return (Some io_EOF)].
Proof.
  refine (query_then_rows (H := sampleIPC) false false freshSocket [x01] io_EOF
            (bytes_of "SELECT id, name FROM t") [VNil; VNil] 4 eq_refl eq_refl eq_refl _).
  repeat (constructor; [split; [reflexivity | cbn; lia] |]). constructor.
Defined.

(** ** The text of a line response *)

Lemma splitDelim_shape (delim : byte) (s line tail : bytes) :
  splitDelim delim s = Some (line, tail) ->
  exists l, line = l ++ [delim] /\ delim ∉ l.
Proof.
  revert line. induction s as [| b s IH]; intros line; cbn; [discriminate |].
  destruct (Byte.eqb b delim) eqn:Hb.
  - apply Byte.byte_dec_bl in Hb as ->. intros [= <- <-].
    exists []. split; [reflexivity | apply not_elem_of_nil].
  - destruct (splitDelim delim s) as [[line' tail'] |]; [| discriminate].
    intros [= <- <-]. destruct (IH line' eq_refl) as (l & -> & Hl).
    exists (b :: l). split; [reflexivity |].
    apply not_elem_of_cons. split; [| assumption].
    intros <-. now rewrite (Byte.byte_dec_lb (eq_refl delim)) in Hb.
Qed.

Lemma TrimSpace_no_newline (l : bytes) :
  x0a ∉ l -> x0a ∉ TrimSpace (l ++ [x0a]).
Proof.
  intros Hl Hin.
  destruct (TrimSpace_within (l ++ [x0a])) as (before & after & Hline).
  pose proof (TrimSpace_no_trailing_space (l ++ [x0a])) as Hlast.
  remember (TrimSpace (l ++ [x0a])) as mid eqn:Hmid. clear Hmid.
  assert (forall k : bytes, k = [] \/ exists k' z, k = k' ++ [z]) as Hends
    by (intros k; induction k using rev_ind; eauto).
  destruct (Hends after) as [-> | (after' & z & ->)].
  - rewrite app_nil_r in Hline.
    destruct (Hends mid) as [-> | (mid' & z & ->)]; [now apply elem_of_nil in Hin |].
    rewrite app_assoc in Hline. apply app_inj_tail in Hline as [_ <-].
    rewrite rev_app_distr in Hlast. discriminate Hlast.
  - rewrite !app_assoc in Hline. apply app_inj_tail in Hline as [-> _].
    apply Hl. rewrite !elem_of_app. auto.
Qed.

(** X24: the text of a line response.  For a response line after ['+'],
    ['-'] or [':'] the payload [readResponse] returns is a piece of the
    line that neither starts nor ends with white space and holds no newline:
    the text of an OK, of a server error or of an integer response is always
    one trimmed line. *)
Theorem line_payload_trimmed (b : byte) (rest line tail : bytes) (fl : error) :
  b ∈ [x2b; x2d; x3a] ->
  splitDelim x0a rest = Some (line, tail) ->
  exists ty payload,
    readResponse (mkReader (b :: rest) fl) = (Return (ty, payload, None), mkReader tail fl)
    /\ (exists before after, line = before ++ payload ++ after)
    /\ spaceWidth payload = 0
    /\ lastSpaceWidth (rev payload) = 0
    /\ x0a ∉ payload.
Proof.
  intros Hb Hline.
  assert (exists ty, readResponse (mkReader (b :: rest) fl) =
                       (Return (ty, TrimSpace line, None), mkReader tail fl)) as [ty Hread].
  { repeat (apply elem_of_cons in Hb as [-> | Hb]).
    - exists "ok". rewrite (readResponse_line fl x2b "ok") by auto. now rewrite Hline.
    - exists "error". rewrite (readResponse_line fl x2d "error") by auto. now rewrite Hline.
    - exists "int". rewrite (readResponse_line fl x3a "int") by auto 6. now rewrite Hline.
    - now apply elem_of_nil in Hb. }
  exists ty, (TrimSpace line). split; [exact Hread |].
  split; [apply TrimSpace_within |].
  split; [apply TrimSpace_no_leading_space |].
  split; [apply TrimSpace_no_trailing_space |].
  destruct (splitDelim_shape _ _ _ _ Hline) as (l & -> & Hl).
  now apply TrimSpace_no_newline.
Qed.

Lemma line_payload_trimmed_witness :
  exists ty payload,
    readResponse (mkReader (bytes_of "- no such table " ++ CRLF ++ bytes_of "+OK") io_EOF) =
      (Return (ty, payload, None), mkReader (bytes_of "+OK") io_EOF)
    /\ (exists before after,
          bytes_of " no such table " ++ CRLF = before ++ payload ++ after)
    /\ spaceWidth payload = 0
    /\ lastSpaceWidth (rev payload) = 0
    /\ x0a ∉ payload.
Proof.
  refine (line_payload_trimmed x2d (bytes_of " no such table " ++ CRLF ++ bytes_of "+OK")
            (bytes_of " no such table " ++ CRLF) (bytes_of "+OK") io_EOF _ eq_refl).
  do 2 constructor.
Defined.
